(** * ScheduleHQ utility scripts: the ICO writer and the CSV uploader

    A shallow embedding of

    - [create_ico_from_pngs.py]: [create_ico_from_pngs], which packs the
      PNG files of a fixed table of resolutions into one Windows icon
      container (header, directory, payloads), and
    - [scripts/shift_manager_uploader.py]: [upload_file],
      [delete_local_file], [get_csv_files] and [process_files], which
      upload every CSV file of a folder and delete the local copy of
      each file whose upload succeeded.

    Python integers are [Z]; [bytes] values are [list byte]; the file
    object of the [with open(..., 'wb')] block is the list of bytes
    written so far; [struct.pack] keeps its range checks, so a value that
    does not fit its field raises [struct.error] here as it does there.
    The images PIL decodes and re-encodes, the storage service and the
    file system are parameters; an output that cannot be opened and a
    PNG that cannot be decoded are outside the model. *)

From Stdlib Require Import ZArith List Lia.
From Stdlib Require Import Strings.Byte.
From stdpp Require Import base option list gmap strings.

(** ** [struct.pack] with a little-endian, standard-size format *)

Module Struct.
Local Open Scope Z_scope.

(** The format characters the writer uses: [B] unsigned char, [H]
    unsigned short, [I] unsigned int.  With the [<] prefix sizes are
    1, 2 and 4 bytes and nothing is padded. *)
Inductive fmt := B | H | I.

Definition width (c : fmt) : nat :=
  match c with B => 1 | H => 2 | I => 4 end.

Definition max_value (c : fmt) : Z :=
  match c with B => 255 | H => 65535 | I => 4294967295 end.

Definition byte_of_Z (z : Z) : byte :=
  match Byte.of_N (Z.to_N (z mod 256)) with
  | Some b => b
  | None => x00
  end.

Definition Z_of_byte (b : byte) : Z := Z.of_N (Byte.to_N b).

(** The [n] low bytes of [z], least significant first. *)
Fixpoint le_bytes (n : nat) (z : Z) : list byte :=
  match n with
  | O => []
  | S n' => byte_of_Z z :: le_bytes n' (z / 256)
  end.

(** The number a little-endian byte string stands for. *)
Fixpoint le_int (bs : list byte) : Z :=
  match bs with
  | [] => 0
  | b :: bs' => Z_of_byte b + 256 * le_int bs'
  end.

(** One field: [None] is [struct.error] (argument out of range). *)
Definition pack1 (c : fmt) (v : Z) : option (list byte) :=
  if (0 <=? v) && (v <=? max_value c) then Some (le_bytes (width c) v)
  else None.

(** [struct.pack('<' + fs, *vs)]; a wrong number of arguments is a
    [struct.error] too. *)
Fixpoint pack (fs : list fmt) (vs : list Z) : option (list byte) :=
  match fs, vs with
  | [], [] => Some []
  | c :: fs', v :: vs' =>
      match pack1 c v, pack fs' vs' with
      | Some b, Some rest => Some (b ++ rest)
      | _, _ => None
      end
  | _, _ => None
  end.

End Struct.

(** ** [create_ico_from_pngs] *)

Module Ico.
Import Struct.
Local Open Scope Z_scope.

(** An element of [images_data]: the dict [{'size': ..., 'data': ...}]. *)
Record img_info := { size : Z; data : list byte }.

(** [len(x)] as a Python integer. *)
Definition len {A} (l : list A) : Z := Z.of_nat (length l).

(** What the function prints, one constructor per [print] statement. *)
Inductive line :=
| LoadingPngFiles            (* "Loading PNG files for ICO creation..." *)
| Loaded (size n : Z)        (* "  <check> {size}x{size} - {n} bytes" *)
| NoPngFilesFound            (* "Error: No PNG files found!" *)
| CreatingIco (n : Z)        (* "Creating ICO with {n} resolutions..." *)
| Created                    (* "<check> Created: {output_ico}" *)
| ReadyForExe                (* "<check> ICO file ready for Windows .exe build" *)
| OriginalsPreserved.        (* "<check> Original PNG files preserved ..." *)

(** How a call ends. *)
Inductive exn := struct_error.
Inductive completion := Returns | Raises (e : exn).

(** The observable effect of one call: the lines printed, the content
    of [output_ico] if the call opened it ([None]: never opened, the
    path is left as it was), and how the call ended. *)
Record run := { stdout : list line; written : option (list byte); ending : completion }.

(** The call fails: it ends in an exception. *)
Definition fails (r : run) : Prop := exists e, ending r = Raises e.

(** *** The [with open(output_ico, 'wb') as f] block

    A computation of the block takes the bytes written to [f] so far
    and either goes on with a value and the new content or raises,
    leaving what had been written. *)
Inductive outcome (A : Type) :=
| Done (a : A) (f : list byte)
| Raise (e : exn) (f : list byte).
Arguments Done {A} a f.
Arguments Raise {A} e f.

Definition W (A : Type) : Type := list byte -> outcome A.

#[export] Instance W_ret : MRet W := fun A a f => Done a f.

#[export] Instance W_bind : MBind W := fun A B k m f =>
  match m f with
  | Done a f' => k a f'
  | Raise e f' => Raise e f'
  end.

(** [f.write(bs)] *)
Definition f_write (bs : list byte) : W unit := fun f => Done tt (f ++ bs).

(** [f.write(struct.pack(fs, *vs))]: the argument is packed first, so a
    [struct.error] leaves the file as it was. *)
Definition write_packed (fs : list fmt) (vs : list Z) : W unit :=
  fun f => match pack fs vs with
           | Some bs => f_write bs f
           | None => Raise struct_error f
           end.

(** Lines 64-81: the loop over [images_data] that writes one directory
    entry per image and advances [offset]. *)
Fixpoint write_directory (images_data : list img_info) (offset : Z) : W Z :=
  match images_data with
  | [] => mret offset
  | img_info :: rest =>
      let size := size img_info in
      let width := if size <? 256 then size else 0 in
      let height := if size <? 256 then size else 0 in
      let data_size := len (data img_info) in
      write_packed [B; B; B; B; H; H; I; I]
                   [width; height; 0; 0; 1; 32; data_size; offset] ;;
      write_directory rest (offset + data_size)
  end.

(** Lines 84-85: the loop that writes the image data. *)
Fixpoint write_image_data (images_data : list img_info) : W unit :=
  match images_data with
  | [] => mret tt
  | img_info :: rest => f_write (data img_info) ;; write_image_data rest
  end.

(** Lines 56-85: the body of the [with] block. *)
Definition write_ico (images_data : list img_info) : W unit :=
  write_packed [H; H; H] [0; 1; len images_data] ;;
  let offset := 6 + 16 * len images_data in
  write_directory images_data offset ;;
  write_image_data images_data.

(** Lines 49-89: what the function does with [images_data] once the
    files are loaded.  The file is opened only past the guard of line
    49; an exception leaves the [with] block after the file is closed,
    and nothing is printed after it. *)
Definition write_images (images_data : list img_info) : run :=
  match images_data with
  | [] =>
      {| stdout := [NoPngFilesFound]; written := None; ending := Returns |}
  | _ :: _ =>
      match write_ico images_data [] with
      | Done _ f =>
          {| stdout := [CreatingIco (len images_data);
                        Created; ReadyForExe; OriginalsPreserved];
             written := Some f;
             ending := Returns |}
      | Raise e f =>
          {| stdout := [CreatingIco (len images_data)];
             written := Some f;
             ending := Raises e |}
      end
  end.

(** *** The whole function *)

(** [sorted(png_files.keys(), reverse=True)] for the keys of the table
    of lines 16-23. *)
Definition png_sizes : list Z := [256; 128; 64; 48; 36; 16].

Section Loader.

(** The resources directory as the function sees it: for the file of a
    resolution, [None] when [os.path.exists] is false, and otherwise the
    bytes [img.save(png_buffer, format='PNG')] leaves in the buffer
    (after the conversion to RGBA). *)
Variable png : Z -> option (list byte).

(** Lines 26-47: [images_data] and the lines printed while loading. *)
Fixpoint load_images (sizes : list Z) : list img_info * list line :=
  match sizes with
  | [] => ([], [])
  | size :: rest =>
      let '(images_data, out) := load_images rest in
      match png size with
      | Some png_data =>
          ({| size := size; data := png_data |} :: images_data,
           Loaded size (len png_data) :: out)
      | None => (images_data, out)
      end
  end.

Definition create_ico_from_pngs : run :=
  let '(images_data, out) := load_images png_sizes in
  let r := write_images images_data in
  {| stdout := LoadingPngFiles :: out ++ stdout r;
     written := written r;
     ending := ending r |}.

End Loader.

(** What is at [output_ico] after a call, given what was there before. *)
Definition output_after (before : option (list byte)) (r : run) : option (list byte) :=
  match written r with
  | Some f => Some f
  | None => before
  end.

(** *** The container a call writes, in closed form *)

(** [sum(len(i['data']) for i in images_data)] *)
Fixpoint total_data (images_data : list img_info) : Z :=
  match images_data with
  | [] => 0
  | img_info :: rest => len (data img_info) + total_data rest
  end.

(** Where the payload of entry [i] starts: the directory base offset
    plus the lengths of the payloads before it. *)
Definition payload_offset (images_data : list img_info) (i : nat) : Z :=
  6 + 16 * len images_data + total_data (take i images_data).

Definition file_size (images_data : list img_info) : Z :=
  6 + 16 * len images_data + total_data images_data.

(** The width and height bytes of an entry (lines 66-67). *)
Definition stored_dimension (size : Z) : Z := if size <? 256 then size else 0.

Definition header_bytes (count : Z) : list byte :=
  le_bytes 2 0 ++ le_bytes 2 1 ++ le_bytes 2 count.

Definition entry_bytes (img_info : img_info) (offset : Z) : list byte :=
  le_bytes 1 (stored_dimension (size img_info))
  ++ le_bytes 1 (stored_dimension (size img_info))
  ++ le_bytes 1 0 ++ le_bytes 1 0 ++ le_bytes 2 1 ++ le_bytes 2 32
  ++ le_bytes 4 (len (data img_info)) ++ le_bytes 4 offset.

Fixpoint directory_bytes (images_data : list img_info) (offset : Z) : list byte :=
  match images_data with
  | [] => []
  | img_info :: rest =>
      entry_bytes img_info offset
      ++ directory_bytes rest (offset + len (data img_info))
  end.

Fixpoint payload_bytes (images_data : list img_info) : list byte :=
  match images_data with
  | [] => []
  | img_info :: rest => data img_info ++ payload_bytes rest
  end.

Definition ico_bytes (images_data : list img_info) : list byte :=
  header_bytes (len images_data)
  ++ directory_bytes images_data (6 + 16 * len images_data)
  ++ payload_bytes images_data.

(** Every value the loop of lines 64-81 packs fits its field when the
    first offset is [offset]: no size is negative, and every payload
    length and every offset fits 32 bits. *)
Fixpoint entries_fit (images_data : list img_info) (offset : Z) : Prop :=
  match images_data with
  | [] => True
  | img_info :: rest =>
      0 <= size img_info
      /\ len (data img_info) <= 4294967295
      /\ offset <= 4294967295
      /\ entries_fit rest (offset + len (data img_info))
  end.

(** Every value the writer packs fits its field: the count fits 16
    bits and the directory entries fit.  This is when [struct.pack]
    raises nothing. *)
Definition fits (images_data : list img_info) : Prop :=
  len images_data <= 65535
  /\ entries_fit images_data (6 + 16 * len images_data).

(** *** Reading a container *)

(** [bs[start : start + n]] *)
Definition slice (start n : Z) (bs : list byte) : list byte :=
  take (Z.to_nat n) (drop (Z.to_nat start) bs).

(** The fields of the directory record of entry [i] of a container,
    at the positions the format string of line 70 gives them. *)
Definition record_at (i : nat) (out : list byte) : list byte :=
  slice (6 + 16 * Z.of_nat i) 16 out.
Definition storedWidth_at (i : nat) (out : list byte) : Z :=
  le_int (slice 0 1 (record_at i out)).
Definition storedHeight_at (i : nat) (out : list byte) : Z :=
  le_int (slice 1 1 (record_at i out)).
Definition payloadByteLength_at (i : nat) (out : list byte) : Z :=
  le_int (slice 8 4 (record_at i out)).
Definition payloadOffset_at (i : nat) (out : list byte) : Z :=
  le_int (slice 12 4 (record_at i out)).

(** Modelled from the spec: the repository has no reader of the
    container; this one follows the layout of the spec's section 6
    (header of 6 bytes: reserved=0, type=1, entryCount; then one
    directory record of 16 bytes per entry; all little-endian). *)
Record dir_record := {
  storedWidth : Z;
  storedHeight : Z;
  colorPaletteCount : Z;
  reserved : Z;
  colorPlanes : Z;
  bitsPerPixel : Z;
  payloadByteLength : Z;
  payloadOffset : Z
}.

(** Modelled from the spec: a directory record from its 16 bytes. *)
Definition parse_record (bs : list byte) : dir_record :=
  {| storedWidth := le_int (slice 0 1 bs);
     storedHeight := le_int (slice 1 1 bs);
     colorPaletteCount := le_int (slice 2 1 bs);
     reserved := le_int (slice 3 1 bs);
     colorPlanes := le_int (slice 4 2 bs);
     bitsPerPixel := le_int (slice 6 2 bs);
     payloadByteLength := le_int (slice 8 4 bs);
     payloadOffset := le_int (slice 12 4 bs) |}.

(** Modelled from the spec: [n] directory records from the bytes after
    the header; [None] when the bytes run out. *)
Fixpoint parse_directory (n : nat) (bs : list byte) : option (list dir_record) :=
  match n with
  | O => Some []
  | S n' =>
      if (16 <=? length bs)%nat then
        match parse_directory n' (drop 16 bs) with
        | Some rs => Some (parse_record (take 16 bs) :: rs)
        | None => None
        end
      else None
  end.

(** Modelled from the spec: the entry count and the directory of a
    container; [None] when the header is short or is not an icon
    header, or the directory is cut. *)
Definition parse_ico (bs : list byte) : option (Z * list dir_record) :=
  if (6 <=? length bs)%nat
     && (le_int (slice 0 2 bs) =? 0) && (le_int (slice 2 2 bs) =? 1)
  then
    let count := le_int (slice 4 2 bs) in
    match parse_directory (Z.to_nat count) (drop 6 bs) with
    | Some rs => Some (count, rs)
    | None => None
    end
  else None.

(** Modelled from the spec: the bytes a directory record points to,
    [None] when they do not lie within the container. *)
Definition payload_of (bs : list byte) (r : dir_record) : option (list byte) :=
  if payloadOffset r + payloadByteLength r <=? len bs
  then Some (slice (payloadOffset r) (payloadByteLength r) bs)
  else None.

(** Modelled from the spec: "0 means 256" for a stored width or
    height. *)
Definition logical_dimension (stored : Z) : Z :=
  if stored =? 0 then 256 else stored.

(** *** Sample inputs *)

(** Two entries, of 256 and of 16 pixels. *)
Definition two_images : list img_info :=
  [ {| size := 256; data := [x89; x50; x4e] |}; {| size := 16; data := [x47] |} ].

(** Three entries of 256, 48 and 16 pixels. *)
Definition three_images (d256 d48 d16 : list byte) : list img_info :=
  [ {| size := 256; data := d256 |}; {| size := 48; data := d48 |};
    {| size := 16; data := d16 |} ].

(** A resources directory with no PNG file at all. *)
Definition no_png : Z -> option (list byte) := fun _ => None.

(** Two resources directories with the same 16-pixel icon; the second
    also holds a file the table of line 16 does not name. *)
Definition only_16 : Z -> option (list byte) :=
  fun size => if size =? 16 then Some [x89; x50] else None.
Definition only_16_and_512 : Z -> option (list byte) :=
  fun size => if size =? 16 then Some [x89; x50]
              else if size =? 512 then Some [x47] else None.

End Ico.

(** ** [shift_manager_uploader.py] *)

Module Uploader.
Local Open Scope Z_scope.

(** A file of the watch folder, by name. *)
Definition Path := string.

(** What the script logs, one constructor per [logger] call. *)
Inductive log_line :=
| DoubleRule                      (* "=" * 60 *)
| SingleRule                      (* "-" * 60 *)
| StartedAt                       (* "Shift Manager Uploader started at ..." *)
| FolderMissing                   (* "Watch folder does not exist: ..." *)
| FoundCsv (n : Z)                (* "Found {n} CSV file(s) in ..." *)
| NoCsvFiles                      (* "No CSV files to process" *)
| Processing (p : Path)           (* "Processing: {name}" *)
| Uploaded (p : Path)             (* "Uploaded: {name} -> gs://..." *)
| UploadFailed (p : Path)         (* "Failed to upload {name}: ..." *)
| DeletedLocal (p : Path)         (* "Deleted local file: {name}" *)
| DeleteFailed (p : Path)         (* "Failed to delete {name}: ..." *)
| LocalCopyRemains (p : Path)     (* "File uploaded but local copy remains: {name}" *)
| Complete (uploaded failed : Z). (* "Processing complete: {u} uploaded, {f} failed" *)

(** The state the script acts on: the files of the watch folder and
    the lines logged so far. *)
Record world := { disk : gset Path; log : list log_line }.

Definition logged (l : log_line) (w : world) : world :=
  {| disk := disk w; log := log w ++ [l] |}.

Section Collaborators.

(** The collaborators, each a function of the file:
    - [is_csv p]: [Path.glob("*.csv")] yields [p];
    - [storage_accepts p]: [blob.upload_from_filename] returns for the
      existing file [p] (it raises otherwise);
    - [unlink_allowed p]: [Path.unlink] returns for the existing file
      [p] (it raises otherwise, as on a locked or read-only file). *)
Variable is_csv : Path -> bool.
Variable storage_accepts : Path -> bool.
Variable unlink_allowed : Path -> bool.

(** Lines 83-93.  [folder_exists] is [folder_path.exists()]. *)
Definition get_csv_files (folder_exists : bool) (w : world) : list Path * world :=
  if folder_exists then
    let csv_files := filter (fun p => is_csv p = true) (elements (disk w)) in
    (csv_files, logged (FoundCsv (Z.of_nat (length csv_files))) w)
  else ([], logged FolderMissing w).

(** Lines 95-120: any exception of the upload, a missing local file
    included, is caught, logged and turned into [False]. *)
Definition upload_file (local_path : Path) (w : world) : bool * world :=
  if bool_decide (local_path ∈ disk w) && storage_accepts local_path
  then (true, logged (Uploaded local_path) w)
  else (false, logged (UploadFailed local_path) w).

(** Lines 122-138: likewise for [unlink]. *)
Definition delete_local_file (file_path : Path) (w : world) : bool * world :=
  if bool_decide (file_path ∈ disk w) && unlink_allowed file_path
  then (true, {| disk := disk w ∖ {[file_path]};
                 log := log w ++ [DeletedLocal file_path] |})
  else (false, logged (DeleteFailed file_path) w).

(** Lines 162-173: the body of the loop, on the counters and the world. *)
Definition process_one (csv_file : Path) (st : Z * Z * world) : Z * Z * world :=
  let '(uploaded, failed, w) := st in
  let w := logged (Processing csv_file) w in
  let '(ok, w) := upload_file csv_file w in
  if ok then
    let '(deleted, w) := delete_local_file csv_file w in
    if deleted then (uploaded + 1, failed, w)
    else (uploaded + 1, failed, logged (LocalCopyRemains csv_file) w)
  else (uploaded, failed + 1, w).

(** Line 161: [for csv_file in csv_files]. *)
Fixpoint process_loop (csv_files : list Path) (st : Z * Z * world) : Z * Z * world :=
  match csv_files with
  | [] => st
  | csv_file :: rest => process_loop rest (process_one csv_file st)
  end.

(** Lines 144-178, from the files of the watch folder and an empty log
    to the files left and the lines of this run. *)
Definition process_files (folder_exists : bool) (files : gset Path) : world :=
  let w := {| disk := files; log := [DoubleRule; StartedAt; DoubleRule] |} in
  let '(csv_files, w) := get_csv_files folder_exists w in
  match csv_files with
  | [] => logged NoCsvFiles w
  | _ :: _ =>
      let '(uploaded, failed, w) := process_loop csv_files (0, 0, w) in
      {| disk := disk w;
         log := log w ++ [SingleRule; Complete uploaded failed; DoubleRule] |}
  end.

(** *** A run in closed form *)

(** The files [get_csv_files] returns when the folder exists. *)
Definition csv_files_of (files : gset Path) : list Path :=
  filter (fun p => is_csv p = true) (elements files).

(** The lines logged for a file that is in the folder. *)
Definition file_lines (p : Path) : list log_line :=
  if storage_accepts p then
    if unlink_allowed p then [Processing p; Uploaded p; DeletedLocal p]
    else [Processing p; Uploaded p; DeleteFailed p; LocalCopyRemains p]
  else [Processing p; UploadFailed p].

(** How many of the files the storage accepts, and how many it does not. *)
Fixpoint uploaded_count (csv_files : list Path) : Z :=
  match csv_files with
  | [] => 0
  | p :: rest => (if storage_accepts p then 1 else 0) + uploaded_count rest
  end.

Fixpoint failed_count (csv_files : list Path) : Z :=
  match csv_files with
  | [] => 0
  | p :: rest => (if storage_accepts p then 0 else 1) + failed_count rest
  end.

(** The files that are uploaded and then unlinked. *)
Fixpoint deleted (csv_files : list Path) : gset Path :=
  match csv_files with
  | [] => ∅
  | p :: rest =>
      (if storage_accepts p && unlink_allowed p then {[p]} else ∅) ∪ deleted rest
  end.

End Collaborators.

(** Every line that reports an [unlink], done or refused, comes right
    after the line that reports the upload of the same file. *)
Definition deletion_follows_upload (t : list log_line) : Prop :=
  forall i p,
    t !! i = Some (DeletedLocal p) \/ t !! i = Some (DeleteFailed p) ->
    exists j, i = S j /\ t !! j = Some (Uploaded p).

(** *** Sample inputs *)

Definition two_csv : gset Path := {[ "a.csv"%string; "b.csv"%string ]}.
Definition any_file : Path -> bool := fun _ => true.
Definition never : Path -> bool := fun _ => false.
Definition only_a : Path -> bool := fun p => String.eqb p "a.csv".

End Uploader.


(** ** The script's entry point *)

Module Entry.
Import Uploader.
Local Open Scope Z_scope.

(** What [initialize_firebase] logs, one constructor per [logger] call. *)
Inductive init_line :=
| AccountFileMissing     (* "Service account file not found: ..." *)
| DownloadHint           (* "Please download from Firebase Console > ..." *)
| FirebaseInitialized    (* "Firebase initialized successfully" *)
| FirebaseInitFailed.    (* "Failed to initialize Firebase: ..." *)

(** How a function of the script hands control back: it returns, or
    [sys.exit(code)] ends the process. *)
Inductive exit := Finished | SystemExit (code : Z).

(** Lines 62-77.  [account_exists] is [SERVICE_ACCOUNT_PATH.exists()];
    [sdk_ok] says that [credentials.Certificate] and
    [firebase_admin.initialize_app] return (they raise otherwise). *)
Definition initialize_firebase (account_exists sdk_ok : bool) : list init_line * exit :=
  if negb account_exists then ([AccountFileMissing; DownloadHint], SystemExit 1)
  else if sdk_ok then ([FirebaseInitialized], Finished)
  else ([FirebaseInitFailed], SystemExit 1).

(** What one execution of the script leaves: the lines of the
    initialisation, the files of the watch folder, the lines of
    [process_files], and how it ended. *)
Record script_run := {
  init_log : list init_line;
  files_after : gset Path;
  run_log : list log_line;
  exit_status : exit
}.

(** Lines 180-186. *)
Definition main (is_csv storage_accepts unlink_allowed : Path -> bool)
    (account_exists sdk_ok folder_exists : bool) (files : gset Path) : script_run :=
  let '(lines, e) := initialize_firebase account_exists sdk_ok in
  match e with
  | SystemExit code =>
      {| init_log := lines; files_after := files; run_log := [];
         exit_status := SystemExit code |}
  | Finished =>
      let w := process_files is_csv storage_accepts unlink_allowed folder_exists files in
      {| init_log := lines; files_after := disk w; run_log := log w;
         exit_status := Finished |}
  end.

(** How many lines of a log report an upload, and how many a failed
    upload. *)
Definition is_uploaded_line (l : log_line) : bool :=
  match l with Uploaded _ => true | _ => false end.
Definition is_upload_failed_line (l : log_line) : bool :=
  match l with UploadFailed _ => true | _ => false end.
Definition count_lines (f : log_line -> bool) (t : list log_line) : Z :=
  Z.of_nat (length (List.filter f t)).

(** *** Sample inputs *)



End Entry.

(** * Properties *)

(** ** Little-endian fields *)

Module StructFacts.
Import Struct.
Local Open Scope Z_scope.

Lemma Z_of_byte_range (b : byte) : 0 <= Z_of_byte b <= 255.
Proof.
  unfold Z_of_byte. pose proof (Byte.to_N_bounded b). lia.
Qed.

Lemma Z_of_byte_of_Z (z : Z) : Z_of_byte (byte_of_Z z) = z mod 256.
Proof.
  unfold Z_of_byte, byte_of_Z.
  pose proof (Z.mod_pos_bound z 256 ltac:(lia)) as Hm.
  destruct (Byte.of_N (Z.to_N (z mod 256))) as [b|] eqn:E.
  - apply Byte.to_of_N in E. rewrite E. lia.
  - apply Byte.of_N_None_iff in E. lia.
Qed.

Lemma length_le_bytes (n : nat) (z : Z) : length (le_bytes n z) = n.
Proof. revert z. induction n as [|n IH]; intros z; simpl; [|rewrite IH]; reflexivity. Qed.

Lemma le_int_le_bytes (n : nat) (z : Z) :
  0 <= z < 256 ^ Z.of_nat n -> le_int (le_bytes n z) = z.
Proof.
  revert z. induction n as [|n IH]; intros z Hz.
  - simpl in *. lia.
  - rewrite Nat2Z.inj_succ, Z.pow_succ_r in Hz by lia.
    cbn [le_bytes le_int]. rewrite Z_of_byte_of_Z, IH.
    + pose proof (Z.div_mod z 256 ltac:(lia)). lia.
    + split; [apply Z.div_pos; lia | apply Z.div_lt_upper_bound; lia].
Qed.

Lemma le_int_range (bs : list byte) : 0 <= le_int bs < 256 ^ Z.of_nat (length bs).
Proof.
  induction bs as [|b bs IH].
  - simpl. lia.
  - cbn [le_int length]. rewrite Nat2Z.inj_succ, Z.pow_succ_r by lia.
    pose proof (Z_of_byte_range b). lia.
Qed.

Lemma max_value_width (c : fmt) : max_value c = 256 ^ Z.of_nat (width c) - 1.
Proof. destruct c; reflexivity. Qed.

Lemma pack1_fits (c : fmt) (v : Z) :
  0 <= v <= max_value c -> pack1 c v = Some (le_bytes (width c) v).
Proof.
  intros [H0 H1]. unfold pack1.
  apply Z.leb_le in H0. apply Z.leb_le in H1. rewrite H0, H1. reflexivity.
Qed.

Lemma pack1_raises (c : fmt) (v : Z) :
  v < 0 \/ max_value c < v -> pack1 c v = None.
Proof.
  intros Hv. unfold pack1.
  destruct (0 <=? v) eqn:E0; [|reflexivity].
  destruct (v <=? max_value c) eqn:E1; [|reflexivity].
  apply Z.leb_le in E0. apply Z.leb_le in E1. lia.
Qed.

End StructFacts.

(** ** The icon container *)

Module IcoFacts.
Import Struct StructFacts Ico.
Local Open Scope Z_scope.

Lemma len_nonneg {A} (l : list A) : 0 <= len l.
Proof. unfold len. lia. Qed.

Lemma len_cons {A} (x : A) (l : list A) : len (x :: l) = 1 + len l.
Proof. unfold len. cbn [length]. lia. Qed.

Lemma total_data_nonneg (images_data : list img_info) : 0 <= total_data images_data.
Proof.
  induction images_data as [|img rest IH]; cbn [total_data]; [lia|].
  pose proof (len_nonneg (data img)). lia.
Qed.

Lemma total_data_take_le (images_data : list img_info) (i : nat) :
  total_data (take i images_data) <= total_data images_data.
Proof.
  revert i. induction images_data as [|img rest IH]; intros [|i]; cbn [take total_data]; try lia.
  - pose proof (total_data_nonneg rest). pose proof (len_nonneg (data img)). lia.
  - specialize (IH i). lia.
Qed.

Lemma total_data_lookup_le (images_data : list img_info) (i : nat) (img : img_info) :
  images_data !! i = Some img ->
  total_data (take i images_data) + len (data img) <= total_data images_data.
Proof.
  revert i. induction images_data as [|x rest IH]; intros [|i] Hi; try discriminate.
  - injection Hi as ->. cbn [take total_data]. pose proof (total_data_nonneg rest). lia.
  - cbn [take total_data]. specialize (IH i Hi). lia.
Qed.

Lemma stored_dimension_range (size : Z) :
  0 <= size -> 0 <= stored_dimension size <= 255.
Proof. intros H. unfold stored_dimension. destruct (Z.ltb_spec size 256); lia. Qed.

(** *** The three writes *)

Lemma pack_header (count : Z) :
  0 <= count <= 65535 -> pack [H; H; H] [0; 1; count] = Some (header_bytes count).
Proof.
  intros Hc. cbn [pack]. rewrite !pack1_fits by (cbn [max_value]; lia).
  unfold header_bytes. cbn [width]. rewrite app_nil_r. reflexivity.
Qed.

Lemma pack_entry (img : img_info) (offset : Z) :
  0 <= size img -> len (data img) <= 4294967295 -> 0 <= offset <= 4294967295 ->
  pack [B; B; B; B; H; H; I; I]
       [stored_dimension (size img); stored_dimension (size img); 0; 0; 1; 32;
        len (data img); offset]
  = Some (entry_bytes img offset).
Proof.
  intros Hs Hl Ho. pose proof (stored_dimension_range _ Hs).
  pose proof (len_nonneg (data img)).
  cbn [pack]. rewrite !pack1_fits by (cbn [max_value]; lia).
  unfold entry_bytes. cbn [width]. rewrite app_nil_r. reflexivity.
Qed.

Lemma pack_entry_raises (img : img_info) (offset : Z) :
  size img < 0 \/ 4294967295 < len (data img) \/ 4294967295 < offset ->
  pack [B; B; B; B; H; H; I; I]
       [stored_dimension (size img); stored_dimension (size img); 0; 0; 1; 32;
        len (data img); offset]
  = None.
Proof.
  intros Hbad. cbn [pack].
  destruct Hbad as [Hs | [Hl | Ho]].
  - rewrite (pack1_raises B (stored_dimension (size img))); [reflexivity|].
    left. unfold stored_dimension. destruct (Z.ltb_spec (size img) 256); lia.
  - rewrite (pack1_raises I (len (data img))) by (right; exact Hl).
    repeat (match goal with |- context [match pack1 ?c ?v with _ => _ end] =>
                              destruct (pack1 c v) end); reflexivity.
  - rewrite (pack1_raises I offset) by (right; exact Ho).
    repeat (match goal with |- context [match pack1 ?c ?v with _ => _ end] =>
                              destruct (pack1 c v) end); reflexivity.
Qed.

Lemma write_directory_fits (images_data : list img_info) (offset : Z) (f : list byte) :
  0 <= offset -> entries_fit images_data offset ->
  write_directory images_data offset f
  = Done (offset + total_data images_data) (f ++ directory_bytes images_data offset).
Proof.
  revert offset f. induction images_data as [|img rest IH]; intros offset f H0 Hfit.
  - cbn. rewrite Z.add_0_r, app_nil_r. reflexivity.
  - destruct Hfit as (Hs & Hl & Ho & Hrest).
    pose proof (len_nonneg (data img)).
    cbn [write_directory directory_bytes total_data].
    unfold mbind, W_bind, write_packed.
    change (if size img <? 256 then size img else 0) with (stored_dimension (size img)).
    rewrite pack_entry by lia. unfold f_write.
    rewrite IH by (trivial; lia).
    rewrite <- app_assoc, Z.add_assoc. reflexivity.
Qed.

Lemma write_directory_raises (images_data : list img_info) (offset : Z) (f : list byte) :
  0 <= offset -> ~ entries_fit images_data offset ->
  exists f', write_directory images_data offset f = Raise struct_error f'.
Proof.
  revert offset f. induction images_data as [|img rest IH]; intros offset f H0 Hbad.
  - exfalso. apply Hbad. cbn [entries_fit]. constructor.
  - pose proof (len_nonneg (data img)).
    cbn [write_directory]. unfold mbind, W_bind, write_packed.
    change (if size img <? 256 then size img else 0) with (stored_dimension (size img)).
    destruct (Z_lt_le_dec (size img) 0) as [Hs|Hs];
      [rewrite pack_entry_raises by tauto; eauto|].
    destruct (Z_lt_le_dec 4294967295 (len (data img))) as [Hl|Hl];
      [rewrite pack_entry_raises by tauto; eauto|].
    destruct (Z_lt_le_dec 4294967295 offset) as [Ho|Ho];
      [rewrite pack_entry_raises by tauto; eauto|].
    rewrite pack_entry by lia. unfold f_write.
    apply IH; [lia|]. intros Hrest. apply Hbad. cbn [entries_fit]. tauto.
Qed.

Lemma write_image_data_done (images_data : list img_info) (f : list byte) :
  write_image_data images_data f = Done tt (f ++ payload_bytes images_data).
Proof.
  revert f. induction images_data as [|img rest IH]; intros f.
  - cbn. rewrite app_nil_r. reflexivity.
  - cbn [write_image_data payload_bytes]. unfold mbind, W_bind, f_write.
    rewrite IH, <- app_assoc. reflexivity.
Qed.

Lemma write_ico_fits (images_data : list img_info) :
  fits images_data -> write_ico images_data [] = Done tt (ico_bytes images_data).
Proof.
  intros (Hn & Hfit).
  pose proof (len_nonneg images_data).
  unfold write_ico, mbind, W_bind, write_packed.
  rewrite pack_header by lia. unfold f_write.
  rewrite write_directory_fits by (trivial; lia).
  rewrite write_image_data_done. unfold ico_bytes.
  rewrite <- app_assoc. reflexivity.
Qed.

(** Outside [fits] a [struct.pack] raises and the call ends there. *)
Lemma write_ico_raises (images_data : list img_info) :
  ~ fits images_data -> exists f, write_ico images_data [] = Raise struct_error f.
Proof.
  intros Hbad. pose proof (len_nonneg images_data).
  unfold write_ico, mbind, W_bind, write_packed.
  destruct (Z_lt_le_dec 65535 (len images_data)) as [Hn|Hn].
  - cbn [pack]. rewrite (pack1_raises H (len images_data)) by (right; exact Hn).
    cbn. eauto.
  - rewrite pack_header by lia. unfold f_write.
    destruct (write_directory_raises images_data (6 + 16 * len images_data)
                (header_bytes (len images_data))) as [f' Hf'];
      [lia | intros Hfit; apply Hbad; split; assumption |].
    cbn [app]. rewrite Hf'. eauto.
Qed.

Lemma write_images_fits (images_data : list img_info) :
  images_data <> [] -> fits images_data ->
  write_images images_data
  = {| stdout := [CreatingIco (len images_data); Created; ReadyForExe; OriginalsPreserved];
       written := Some (ico_bytes images_data);
       ending := Returns |}.
Proof.
  intros Hne Hfits. unfold write_images.
  destruct images_data as [|img rest]; [congruence|].
  rewrite write_ico_fits by assumption. reflexivity.
Qed.

Lemma write_images_raises (images_data : list img_info) :
  images_data <> [] -> ~ fits images_data ->
  ending (write_images images_data) = Raises struct_error.
Proof.
  intros Hne Hbad. unfold write_images.
  destruct images_data as [|img rest]; [congruence|].
  destruct (write_ico_raises _ Hbad) as [f Hf]. rewrite Hf. reflexivity.
Qed.

(** *** The layout of [ico_bytes] *)

Lemma length_header_bytes (count : Z) : length (header_bytes count) = 6%nat.
Proof. reflexivity. Qed.

Lemma length_entry_bytes (img : img_info) (offset : Z) :
  length (entry_bytes img offset) = 16%nat.
Proof. reflexivity. Qed.

Lemma length_directory_bytes (images_data : list img_info) (offset : Z) :
  length (directory_bytes images_data offset) = (16 * length images_data)%nat.
Proof.
  revert offset. induction images_data as [|img rest IH]; intros offset; [reflexivity|].
  cbn [directory_bytes]. rewrite length_app, length_entry_bytes, IH. cbn [length]. lia.
Qed.

Lemma len_payload_bytes (images_data : list img_info) :
  len (payload_bytes images_data) = total_data images_data.
Proof.
  induction images_data as [|img rest IH]; [reflexivity|].
  cbn [payload_bytes total_data]. rewrite <- IH. unfold len. rewrite length_app. lia.
Qed.

Lemma len_ico_bytes (images_data : list img_info) :
  len (ico_bytes images_data) = file_size images_data.
Proof.
  unfold ico_bytes, file_size. rewrite <- len_payload_bytes. unfold len.
  rewrite !length_app, length_header_bytes, length_directory_bytes. lia.
Qed.

Lemma directory_entry (images_data : list img_info) (offset : Z) (k : list byte)
      (i : nat) (img : img_info) :
  images_data !! i = Some img ->
  take 16 (drop (16 * i) (directory_bytes images_data offset ++ k))
  = entry_bytes img (offset + total_data (take i images_data)).
Proof.
  revert offset i. induction images_data as [|x rest IH]; intros offset [|i] Hi;
    try discriminate.
  - injection Hi as ->. cbn [directory_bytes take total_data Nat.mul drop].
    rewrite <- app_assoc, Z.add_0_r.
    apply take_app_length'. rewrite length_entry_bytes. reflexivity.
  - cbn [directory_bytes take total_data]. rewrite <- app_assoc.
    replace (16 * S i)%nat with (length (entry_bytes x offset) + 16 * i)%nat
      by (rewrite length_entry_bytes; lia).
    rewrite drop_app_add, (IH _ _ Hi), Z.add_assoc. reflexivity.
Qed.

Lemma record_at_ico_bytes (images_data : list img_info) (i : nat) (img : img_info) :
  images_data !! i = Some img ->
  record_at i (ico_bytes images_data) = entry_bytes img (payload_offset images_data i).
Proof.
  intros Hi. unfold record_at, slice, ico_bytes, payload_offset.
  replace (Z.to_nat (6 + 16 * Z.of_nat i))
    with (length (header_bytes (len images_data)) + 16 * i)%nat
    by (rewrite length_header_bytes; lia).
  rewrite drop_app_add. change (Z.to_nat 16) with 16%nat.
  apply directory_entry, Hi.
Qed.

Lemma payload_entry (images_data : list img_info) (i : nat) (img : img_info) :
  images_data !! i = Some img ->
  take (length (data img))
       (drop (Z.to_nat (total_data (take i images_data))) (payload_bytes images_data))
  = data img.
Proof.
  revert i. induction images_data as [|x rest IH]; intros [|i] Hi; try discriminate.
  - injection Hi as ->. cbn [take total_data payload_bytes drop Z.to_nat].
    apply take_app_length.
  - cbn [take total_data payload_bytes].
    pose proof (total_data_nonneg (take i rest)).
    replace (Z.to_nat (len (data x) + total_data (take i rest)))
      with (length (data x) + Z.to_nat (total_data (take i rest)))%nat
      by (unfold len; lia).
    rewrite drop_app_add. apply IH, Hi.
Qed.

Lemma payload_at_ico_bytes (images_data : list img_info) (i : nat) (img : img_info) :
  images_data !! i = Some img ->
  slice (payload_offset images_data i) (len (data img)) (ico_bytes images_data)
  = data img.
Proof.
  intros Hi. unfold slice, ico_bytes, payload_offset.
  pose proof (total_data_nonneg (take i images_data)).
  replace (Z.to_nat (6 + 16 * len images_data + total_data (take i images_data)))
    with (length (header_bytes (len images_data)
                  ++ directory_bytes images_data (6 + 16 * len images_data))
          + Z.to_nat (total_data (take i images_data)))%nat
    by (rewrite length_app, length_header_bytes, length_directory_bytes;
        unfold len; lia).
  rewrite app_assoc, drop_app_add.
  replace (Z.to_nat (len (data img))) with (length (data img)) by (unfold len; lia).
  apply payload_entry, Hi.
Qed.

(** *** The fields of a directory record *)

Lemma entry_bytes_fixed (img : img_info) (offset : Z) :
  slice 2 6 (entry_bytes img offset) = [x00; x00; x01; x00; x20; x00].
Proof. reflexivity. Qed.

Lemma entry_bytes_width (img : img_info) (offset : Z) :
  slice 0 1 (entry_bytes img offset) = le_bytes 1 (stored_dimension (size img)).
Proof. reflexivity. Qed.

Lemma entry_bytes_height (img : img_info) (offset : Z) :
  slice 1 1 (entry_bytes img offset) = le_bytes 1 (stored_dimension (size img)).
Proof. reflexivity. Qed.

Lemma entry_bytes_length (img : img_info) (offset : Z) :
  slice 8 4 (entry_bytes img offset) = le_bytes 4 (len (data img)).
Proof. reflexivity. Qed.

Lemma entry_bytes_offset (img : img_info) (offset : Z) :
  slice 12 4 (entry_bytes img offset) = le_bytes 4 offset.
Proof. reflexivity. Qed.

Lemma entries_fit_lookup (images_data : list img_info) (offset : Z) (i : nat) (img : img_info) :
  entries_fit images_data offset -> images_data !! i = Some img ->
  0 <= size img
  /\ len (data img) <= 4294967295
  /\ offset + total_data (take i images_data) <= 4294967295.
Proof.
  revert offset i. induction images_data as [|x rest IH]; intros offset [|i] Hfit Hi;
    try discriminate; destruct Hfit as (Hs & Hl & Ho & Hrest).
  - injection Hi as ->. cbn [take total_data]. lia.
  - cbn [take total_data]. destruct (IH _ _ Hrest Hi) as (? & ? & ?). lia.
Qed.

Lemma fits_lookup (images_data : list img_info) (i : nat) (img : img_info) :
  fits images_data -> images_data !! i = Some img ->
  0 <= size img
  /\ len (data img) <= 4294967295
  /\ payload_offset images_data i <= 4294967295.
Proof. intros [_ Hfit] Hi. apply (entries_fit_lookup _ _ _ _ Hfit Hi). Qed.

Lemma payload_offset_range (images_data : list img_info) (i : nat) (img : img_info) :
  images_data !! i = Some img ->
  0 <= payload_offset images_data i
  /\ payload_offset images_data i + len (data img) <= file_size images_data.
Proof.
  intros Hi. unfold payload_offset, file_size.
  pose proof (total_data_lookup_le _ _ _ Hi).
  pose proof (total_data_nonneg (take i images_data)).
  pose proof (len_nonneg images_data). lia.
Qed.

Lemma payloadOffset_at_ico_bytes (images_data : list img_info) (i : nat) (img : img_info) :
  fits images_data ->
  images_data !! i = Some img ->
  payloadOffset_at i (ico_bytes images_data) = payload_offset images_data i.
Proof.
  intros Hfits Hi. unfold payloadOffset_at.
  rewrite (record_at_ico_bytes _ _ _ Hi), entry_bytes_offset.
  pose proof (payload_offset_range _ _ _ Hi). pose proof (fits_lookup _ _ _ Hfits Hi).
  apply le_int_le_bytes. change (256 ^ Z.of_nat 4) with 4294967296. lia.
Qed.

Lemma payloadByteLength_at_ico_bytes (images_data : list img_info) (i : nat) (img : img_info) :
  fits images_data ->
  images_data !! i = Some img ->
  payloadByteLength_at i (ico_bytes images_data) = len (data img).
Proof.
  intros Hfits Hi. unfold payloadByteLength_at.
  rewrite (record_at_ico_bytes _ _ _ Hi), entry_bytes_length.
  pose proof (fits_lookup _ _ _ Hfits Hi). pose proof (len_nonneg (data img)).
  apply le_int_le_bytes. change (256 ^ Z.of_nat 4) with 4294967296. lia.
Qed.

Lemma stored_at_ico_bytes (images_data : list img_info) (i : nat) (img : img_info) :
  0 <= size img ->
  images_data !! i = Some img ->
  storedWidth_at i (ico_bytes images_data) = stored_dimension (size img)
  /\ storedHeight_at i (ico_bytes images_data) = stored_dimension (size img).
Proof.
  intros Hs Hi. unfold storedWidth_at, storedHeight_at.
  rewrite (record_at_ico_bytes _ _ _ Hi), entry_bytes_width, entry_bytes_height.
  pose proof (stored_dimension_range _ Hs).
  split; apply le_int_le_bytes; change (256 ^ Z.of_nat 1) with 256; lia.
Qed.

(** *** The offsets of the directory *)

(** [fits] of a concrete sequence, by evaluation. *)
Ltac fits_by_evaluation :=
  unfold fits; split;
  [ vm_compute; discriminate
  | cbn [entries_fit]; repeat split; vm_compute; discriminate ].

(** C1: a call on a non-empty sequence whose values fit their fields
    writes a container in which the offset field of the first
    directory record is 6 + 16 * count, the offset field of record [i]
    is that base plus the lengths of the payloads before it, and the
    bytes of the container from that offset on, over the length of the
    payload, are the payload of entry [i]. *)
Theorem payload_offsets_point_to_payloads (images_data : list img_info) :
  images_data <> [] -> fits images_data ->
  exists out,
    written (write_images images_data) = Some out
    /\ ending (write_images images_data) = Returns
    /\ payloadOffset_at 0 out = 6 + 16 * len images_data
    /\ forall i img, images_data !! i = Some img ->
         payloadOffset_at i out
         = 6 + 16 * len images_data + total_data (take i images_data)
         /\ slice (payloadOffset_at i out) (len (data img)) out = data img.
Proof.
  intros Hne Hfits. exists (ico_bytes images_data).
  rewrite (write_images_fits _ Hne Hfits). cbn [written ending].
  split; [reflexivity|]. split; [reflexivity|]. split.
  - destruct images_data as [|img0 rest]; [congruence|].
    rewrite (payloadOffset_at_ico_bytes _ 0 img0 Hfits eq_refl).
    unfold payload_offset. cbn [take total_data]. lia.
  - intros i img Hi. rewrite (payloadOffset_at_ico_bytes _ _ _ Hfits Hi).
    split; [reflexivity|]. apply payload_at_ico_bytes, Hi.
Qed.

Lemma payload_offsets_point_to_payloads_witness :
  exists out,
    written (write_images two_images) = Some out
    /\ ending (write_images two_images) = Returns
    /\ payloadOffset_at 0 out = 6 + 16 * len two_images
    /\ forall i img, two_images !! i = Some img ->
         payloadOffset_at i out
         = 6 + 16 * len two_images + total_data (take i two_images)
         /\ slice (payloadOffset_at i out) (len (data img)) out = data img.
Proof.
  apply (payload_offsets_point_to_payloads two_images).
  - discriminate.
  - fits_by_evaluation.
Defined.

(** *** Header and directory records *)

(** C3: the container begins with the 6 header bytes 00 00, 01 00 and
    the count on 2 bytes, little-endian; the 16 bytes of directory
    record [i], which start at 6 + 16 * i, are the stored width and
    height (1 byte each), 00, 00, 01 00 (colour planes 1), 20 00 (32
    bits per pixel), then the payload length and the payload offset on
    4 bytes each, little-endian. *)
Theorem header_and_directory_layout (images_data : list img_info) :
  images_data <> [] -> fits images_data ->
  exists out,
    written (write_images images_data) = Some out
    /\ slice 0 6 out = [x00; x00; x01; x00] ++ le_bytes 2 (len images_data)
    /\ le_int (slice 4 2 out) = len images_data
    /\ forall i img, images_data !! i = Some img ->
         record_at i out
         = le_bytes 1 (stored_dimension (size img))
           ++ le_bytes 1 (stored_dimension (size img))
           ++ [x00; x00; x01; x00; x20; x00]
           ++ le_bytes 4 (len (data img))
           ++ le_bytes 4 (payload_offset images_data i)
         /\ payloadByteLength_at i out = len (data img)
         /\ payloadOffset_at i out = payload_offset images_data i.
Proof.
  intros Hne Hfits. exists (ico_bytes images_data).
  rewrite (write_images_fits _ Hne Hfits). cbn [written].
  pose proof Hfits as [Hn _]. pose proof (len_nonneg images_data).
  split; [reflexivity|]. split; [reflexivity|]. split.
  - change (slice 4 2 (ico_bytes images_data)) with (le_bytes 2 (len images_data)).
    apply le_int_le_bytes. change (256 ^ Z.of_nat 2) with 65536. lia.
  - intros i img Hi. split; [|split].
    + rewrite (record_at_ico_bytes _ _ _ Hi). reflexivity.
    + apply payloadByteLength_at_ico_bytes; assumption.
    + apply (payloadOffset_at_ico_bytes _ _ img); assumption.
Qed.

Lemma header_and_directory_layout_witness :
  exists out,
    written (write_images two_images) = Some out
    /\ slice 0 6 out = [x00; x00; x01; x00] ++ le_bytes 2 (len two_images)
    /\ le_int (slice 4 2 out) = len two_images
    /\ forall i img, two_images !! i = Some img ->
         record_at i out
         = le_bytes 1 (stored_dimension (size img))
           ++ le_bytes 1 (stored_dimension (size img))
           ++ [x00; x00; x01; x00; x20; x00]
           ++ le_bytes 4 (len (data img))
           ++ le_bytes 4 (payload_offset two_images i)
         /\ payloadByteLength_at i out = len (data img)
         /\ payloadOffset_at i out = payload_offset two_images i.
Proof.
  apply (header_and_directory_layout two_images).
  - discriminate.
  - fits_by_evaluation.
Defined.

(** *** Stored dimensions *)

(** C4: the width and height bytes of the directory record of an
    entry are the entry's dimension when it is between 1 and 255 and 0
    when it is 256, and reading a stored 0 as 256 gives back every
    dimension between 1 and 256. *)
Theorem stored_dimensions (images_data : list img_info) :
  images_data <> [] -> fits images_data ->
  exists out,
    written (write_images images_data) = Some out
    /\ forall i img, images_data !! i = Some img ->
         (1 <= size img <= 255 ->
          storedWidth_at i out = size img /\ storedHeight_at i out = size img)
         /\ (size img = 256 ->
             storedWidth_at i out = 0 /\ storedHeight_at i out = 0)
         /\ (1 <= size img <= 256 ->
             logical_dimension (storedWidth_at i out) = size img
             /\ logical_dimension (storedHeight_at i out) = size img).
Proof.
  intros Hne Hfits. exists (ico_bytes images_data).
  rewrite (write_images_fits _ Hne Hfits). cbn [written].
  split; [reflexivity|]. intros i img Hi.
  destruct (fits_lookup _ _ _ Hfits Hi) as (Hs0 & _ & _).
  destruct (stored_at_ico_bytes _ _ _ Hs0 Hi) as [-> ->].
  unfold stored_dimension, logical_dimension.
  split; [|split]; intros Hs.
  - destruct (Z.ltb_spec (size img) 256); lia.
  - rewrite Hs. split; reflexivity.
  - destruct (Z.ltb_spec (size img) 256) as [Hlt|Hge].
    + destruct (Z.eqb_spec (size img) 0); lia.
    + cbn. lia.
Qed.

Lemma stored_dimensions_witness :
  exists out,
    written (write_images two_images) = Some out
    /\ forall i img, two_images !! i = Some img ->
         (1 <= size img <= 255 ->
          storedWidth_at i out = size img /\ storedHeight_at i out = size img)
         /\ (size img = 256 ->
             storedWidth_at i out = 0 /\ storedHeight_at i out = 0)
         /\ (1 <= size img <= 256 ->
             logical_dimension (storedWidth_at i out) = size img
             /\ logical_dimension (storedHeight_at i out) = size img).
Proof.
  apply (stored_dimensions two_images).
  - discriminate.
  - fits_by_evaluation.
Defined.

(** *** Writing, then reading *)

Lemma parse_directory_bytes (images_data : list img_info) (offset : Z) (k : list byte) :
  exists rs,
    parse_directory (length images_data) (directory_bytes images_data offset ++ k) = Some rs
    /\ length rs = length images_data
    /\ forall i img, images_data !! i = Some img ->
         rs !! i = Some (parse_record
                           (entry_bytes img (offset + total_data (take i images_data)))).
Proof.
  revert offset. induction images_data as [|x rest IH]; intros offset.
  - exists []. repeat split. intros i img Hi. destruct i; discriminate.
  - destruct (IH (offset + len (data x))) as (rs & Hparse & Hlen & Hrs).
    exists (parse_record (entry_bytes x offset) :: rs).
    cbn [length directory_bytes parse_directory]. rewrite <- app_assoc.
    assert (Hlong : (16 <=? length (entry_bytes x offset
                       ++ directory_bytes rest (offset + len (data x)) ++ k))%nat = true).
    { apply Nat.leb_le. rewrite length_app, length_entry_bytes. lia. }
    rewrite Hlong.
    rewrite (drop_app_length' (entry_bytes x offset)) by reflexivity.
    rewrite (take_app_length' (entry_bytes x offset)) by reflexivity.
    rewrite Hparse. split; [reflexivity|]. split; [cbn [length]; lia|].
    intros [|i] img Hi.
    + injection Hi as ->. cbn [take total_data]. rewrite Z.add_0_r. reflexivity.
    + cbn [take total_data]. rewrite Z.add_assoc. apply (Hrs i img Hi).
Qed.

(** C2: a call on a non-empty sequence whose values fit their fields
    writes a container from which the reader recovers the entry count
    and one directory record per entry, and the bytes record [i]
    points to, over its payload length, are the bytes of entry [i]. *)
Theorem write_parse_roundtrip (images_data : list img_info) :
  images_data <> [] -> fits images_data ->
  exists out rs,
    written (write_images images_data) = Some out
    /\ parse_ico out = Some (len images_data, rs)
    /\ length rs = length images_data
    /\ forall i img, images_data !! i = Some img ->
         exists r, rs !! i = Some r
                   /\ payloadByteLength r = len (data img)
                   /\ payload_of out r = Some (data img).
Proof.
  intros Hne Hfits. rewrite (write_images_fits _ Hne Hfits). cbn [written].
  pose proof Hfits as [Hn _]. pose proof (len_nonneg images_data).
  destruct (parse_directory_bytes images_data (6 + 16 * len images_data)
              (payload_bytes images_data)) as (rs & Hparse & Hlen & Hrs).
  exists (ico_bytes images_data), rs. split; [reflexivity|].
  assert (Hcount : le_int (slice 4 2 (ico_bytes images_data)) = len images_data).
  { change (slice 4 2 (ico_bytes images_data)) with (le_bytes 2 (len images_data)).
    apply le_int_le_bytes. change (256 ^ Z.of_nat 2) with 65536. lia. }
  split; [|split; [exact Hlen|]].
  - unfold parse_ico. rewrite Hcount.
    change (le_int (slice 0 2 (ico_bytes images_data))) with 0.
    change (le_int (slice 2 2 (ico_bytes images_data))) with 1.
    change (drop 6 (ico_bytes images_data))
      with (directory_bytes images_data (6 + 16 * len images_data)
            ++ payload_bytes images_data).
    assert (Hlong : (6 <=? length (ico_bytes images_data))%nat = true).
    { apply Nat.leb_le. unfold ico_bytes. rewrite length_app, length_header_bytes. lia. }
    rewrite Hlong. cbn [andb Z.eqb Pos.eqb].
    replace (Z.to_nat (len images_data)) with (length images_data) by (unfold len; lia).
    rewrite Hparse. reflexivity.
  - intros i img Hi. eexists. split; [apply (Hrs i img Hi)|].
    pose proof (payload_offset_range _ _ _ Hi) as [Hlo Hhi].
    pose proof (fits_lookup _ _ _ Hfits Hi) as (_ & Hlmax & Homax).
    pose proof (len_nonneg (data img)).
    assert (Hl : le_int (le_bytes 4 (len (data img))) = len (data img)).
    { apply le_int_le_bytes. change (256 ^ Z.of_nat 4) with 4294967296. lia. }
    assert (Ho : le_int (le_bytes 4 (payload_offset images_data i))
                 = payload_offset images_data i).
    { apply le_int_le_bytes. change (256 ^ Z.of_nat 4) with 4294967296. lia. }
    unfold payload_of. cbn [payloadByteLength payloadOffset parse_record].
    rewrite entry_bytes_length, entry_bytes_offset.
    fold (payload_offset images_data i). rewrite Hl, Ho.
    split; [reflexivity|].
    rewrite len_ico_bytes.
    destruct (Z.leb_spec (payload_offset images_data i + len (data img))
                         (file_size images_data)); [|lia].
    f_equal. apply payload_at_ico_bytes, Hi.
Qed.

Lemma write_parse_roundtrip_witness :
  exists out rs,
    written (write_images two_images) = Some out
    /\ parse_ico out = Some (len two_images, rs)
    /\ length rs = length two_images
    /\ forall i img, two_images !! i = Some img ->
         exists r, rs !! i = Some r
                   /\ payloadByteLength r = len (data img)
                   /\ payload_of out r = Some (data img).
Proof.
  apply (write_parse_roundtrip two_images).
  - discriminate.
  - fits_by_evaluation.
Defined.

(** *** Loading *)

Lemma load_images_lines (png : Z -> option (list byte)) (sizes : list Z) :
  (load_images png sizes).2
  = map (fun img => Loaded (size img) (len (data img))) (load_images png sizes).1.
Proof.
  induction sizes as [|sz rest IH]; [reflexivity|].
  cbn [load_images]. destruct (load_images png rest) as [images_data out].
  cbn [fst snd] in IH. destruct (png sz); cbn [fst snd map size data]; congruence.
Qed.

Lemma create_ico_from_pngs_unfold (png : Z -> option (list byte)) :
  create_ico_from_pngs png
  = let images_data := (load_images png png_sizes).1 in
    let r := write_images images_data in
    {| stdout := LoadingPngFiles
                 :: map (fun img => Loaded (size img) (len (data img))) images_data
                 ++ stdout r;
       written := written r;
       ending := ending r |}.
Proof.
  unfold create_ico_from_pngs. rewrite <- load_images_lines.
  destruct (load_images png png_sizes). reflexivity.
Qed.


Lemma load_images_bounds (png : Z -> option (list byte)) (sizes : list Z) :
  Forall (fun s => 0 <= s) sizes ->
  Forall (fun img => 0 <= size img) (load_images png sizes).1
  /\ (length (load_images png sizes).1 <= length sizes)%nat.
Proof.
  induction sizes as [|sz rest IH]; intros Hs; [split; [constructor|reflexivity]|].
  apply Forall_cons in Hs as [Hsz Hrest]. destruct (IH Hrest) as [IH1 IH2].
  cbn [load_images]. destruct (load_images png rest) as [images_data out].
  cbn [fst] in *. destruct (png sz); cbn [fst length]; split; try lia; try assumption.
  apply Forall_cons. split; assumption.
Qed.


(** *** No PNG file *)

(** C5, as stated, fails: with no PNG file the call does not end in
    an exception. *)
Lemma empty_input_does_not_fail :
  ~ (fails (create_ico_from_pngs no_png)
     /\ written (create_ico_from_pngs no_png) = None).
Proof. intros [[e He] _]. discriminate He. Qed.

(** C5, amended: when no PNG file is loaded the call prints the error
    line and returns; it raises nothing, never opens the output, and
    leaves at the output path what was there before. *)
Theorem empty_input_prints_and_returns (png : Z -> option (list byte)) :
  (load_images png png_sizes).1 = [] ->
  create_ico_from_pngs png
  = {| stdout := [LoadingPngFiles; NoPngFilesFound];
       written := None;
       ending := Returns |}
  /\ ~ fails (create_ico_from_pngs png)
  /\ forall before, output_after before (create_ico_from_pngs png) = before.
Proof.
  intros Hempty.
  assert (Hrun : create_ico_from_pngs png
                 = {| stdout := [LoadingPngFiles; NoPngFilesFound];
                      written := None; ending := Returns |}).
  { rewrite create_ico_from_pngs_unfold, Hempty. reflexivity. }
  rewrite Hrun. split; [reflexivity|]. split.
  - intros [e He]. discriminate He.
  - reflexivity.
Qed.

Lemma empty_input_prints_and_returns_witness :
  create_ico_from_pngs no_png
  = {| stdout := [LoadingPngFiles; NoPngFilesFound];
       written := None;
       ending := Returns |}
  /\ ~ fails (create_ico_from_pngs no_png)
  /\ forall before, output_after before (create_ico_from_pngs no_png) = before.
Proof. apply (empty_input_prints_and_returns no_png). reflexivity. Defined.

(** *** The scenario of three entries *)

(** C6: for entries of 256, 48 and 16 pixels whose payloads are 1000,
    400 and 150 bytes long, the directory ends and the payloads begin
    at byte 54, and the three directory records carry the offsets 54,
    1054 and 1454. *)
Theorem three_entries_offsets (d256 d48 d16 : list byte) :
  length d256 = 1000%nat -> length d48 = 400%nat -> length d16 = 150%nat ->
  exists out,
    written (write_images (three_images d256 d48 d16)) = Some out
    /\ 6 + 16 * len (three_images d256 d48 d16) = 54
    /\ drop 54 out = d256 ++ d48 ++ d16
    /\ payloadOffset_at 0 out = 54
    /\ payloadOffset_at 1 out = 1054
    /\ payloadOffset_at 2 out = 1454.
Proof.
  intros H256 H48 H16.
  assert (Hfits : fits (three_images d256 d48 d16)).
  { unfold fits, three_images, len. cbn [entries_fit data size length].
    unfold len. rewrite H256, H48, H16. lia. }
  exists (ico_bytes (three_images d256 d48 d16)).
  assert (Hne : three_images d256 d48 d16 <> []) by discriminate.
  rewrite (write_images_fits _ Hne Hfits). cbn [written].
  split; [reflexivity|]. split; [reflexivity|]. split.
  - change (drop 54 (ico_bytes (three_images d256 d48 d16)))
      with (d256 ++ d48 ++ d16 ++ []).
    rewrite app_nil_r. reflexivity.
  - rewrite (payloadOffset_at_ico_bytes _ 0 _ Hfits eq_refl),
            (payloadOffset_at_ico_bytes _ 1 _ Hfits eq_refl),
            (payloadOffset_at_ico_bytes _ 2 _ Hfits eq_refl).
    unfold payload_offset, three_images. cbn [take total_data data length].
    unfold len. cbn [length]. rewrite H256, H48. lia.
Qed.

Lemma three_entries_offsets_witness :
  exists out,
    written (write_images (three_images (repeat x00 1000) (repeat x01 400)
                                        (repeat x02 150))) = Some out
    /\ 6 + 16 * len (three_images (repeat x00 1000) (repeat x01 400)
                                  (repeat x02 150)) = 54
    /\ drop 54 out = repeat x00 1000 ++ repeat x01 400 ++ repeat x02 150
    /\ payloadOffset_at 0 out = 54
    /\ payloadOffset_at 1 out = 1054
    /\ payloadOffset_at 2 out = 1454.
Proof.
  apply (three_entries_offsets (repeat x00 1000) (repeat x01 400) (repeat x02 150));
    vm_compute; reflexivity.
Defined.

(** *** Determinism *)

(** C7: two calls that load the same entries (the same sizes with the
    same bytes, in the same order) print the same lines, end the same
    way and write the same bytes; and when there is an entry at all,
    what is at the output path afterwards is the same whatever was
    there before either call. *)
Theorem same_entries_same_output (png1 png2 : Z -> option (list byte)) :
  (load_images png1 png_sizes).1 = (load_images png2 png_sizes).1 ->
  create_ico_from_pngs png1 = create_ico_from_pngs png2
  /\ forall before1 before2,
       (load_images png1 png_sizes).1 <> [] ->
       output_after before1 (create_ico_from_pngs png1)
       = output_after before2 (create_ico_from_pngs png2).
Proof.
  intros Hsame. rewrite !create_ico_from_pngs_unfold, Hsame.
  split; [reflexivity|]. intros before1 before2 Hne.
  cbv zeta. unfold output_after. cbn [written].
  destruct (load_images png2 png_sizes).1 as [|img rest]; [congruence|].
  unfold write_images. destruct (write_ico (img :: rest) []); reflexivity.
Qed.

Lemma same_entries_same_output_witness :
  create_ico_from_pngs only_16 = create_ico_from_pngs only_16_and_512
  /\ forall before1 before2,
       (load_images only_16 png_sizes).1 <> [] ->
       output_after before1 (create_ico_from_pngs only_16)
       = output_after before2 (create_ico_from_pngs only_16_and_512).
Proof. apply (same_entries_same_output only_16 only_16_and_512). reflexivity. Defined.

End IcoFacts.

(** ** The uploader *)

Module UploaderFacts.
Import Uploader.
Local Open Scope Z_scope.

Section Run.

Variable is_csv : Path -> bool.
Variable storage_accepts : Path -> bool.
Variable unlink_allowed : Path -> bool.

Abbreviation process_one := (process_one storage_accepts unlink_allowed).
Abbreviation process_loop := (process_loop storage_accepts unlink_allowed).
Abbreviation process_files := (process_files is_csv storage_accepts unlink_allowed).
Abbreviation file_lines := (file_lines storage_accepts unlink_allowed).
Abbreviation uploaded_count := (uploaded_count storage_accepts).
Abbreviation failed_count := (failed_count storage_accepts).
Abbreviation deleted := (deleted storage_accepts unlink_allowed).

(** One pass of the loop body on a file that is in the folder. *)
Lemma process_one_on_disk (p : Path) (u f : Z) (w : world) :
  p ∈ disk w ->
  process_one p (u, f, w)
  = (u + (if storage_accepts p then 1 else 0),
     f + (if storage_accepts p then 0 else 1),
     {| disk := if storage_accepts p && unlink_allowed p
                then disk w ∖ {[p]} else disk w;
        log := log w ++ file_lines p |}).
Proof.
  intros Hp. unfold process_one, upload_file, delete_local_file, logged, Uploader.file_lines.
  pose proof (bool_decide_eq_true_2 _ Hp) as Hb.
  destruct (storage_accepts p), (unlink_allowed p); cbn [disk log];
    rewrite Hb; cbn [andb disk log]; rewrite ?Hb; cbn [andb disk log];
    rewrite <- ?app_assoc, ?Z.add_0_r; reflexivity.
Qed.

Lemma elem_of_deleted (l : list Path) (p : Path) :
  p ∈ deleted l <-> p ∈ l /\ storage_accepts p = true /\ unlink_allowed p = true.
Proof.
  induction l as [|x rest IH]; cbn [Uploader.deleted].
  - rewrite elem_of_empty, elem_of_nil. tauto.
  - rewrite elem_of_union, IH, elem_of_cons.
    destruct (storage_accepts x) eqn:Ea, (unlink_allowed x) eqn:Eu; cbn [andb];
      rewrite ?elem_of_singleton, ?elem_of_empty;
      intuition (subst; congruence).
Qed.

Lemma process_loop_closed (l : list Path) (u f : Z) (w : world) :
  NoDup l -> (forall p, p ∈ l -> p ∈ disk w) ->
  process_loop l (u, f, w)
  = (u + uploaded_count l, f + failed_count l,
     {| disk := disk w ∖ deleted l; log := log w ++ flat_map file_lines l |}).
Proof.
  revert u f w. induction l as [|x rest IH]; intros u f w Hnd Hin.
  - cbn. rewrite !Z.add_0_r, app_nil_r, difference_empty_L. destruct w; reflexivity.
  - apply NoDup_cons in Hnd as [Hx Hnd].
    cbn [Uploader.process_loop]. rewrite process_one_on_disk by (apply Hin; left).
    rewrite IH; [|exact Hnd|].
    + cbn [disk log Uploader.uploaded_count Uploader.failed_count Uploader.deleted flat_map].
      rewrite <- app_assoc, !Z.add_assoc. f_equal. f_equal.
      destruct (storage_accepts x && unlink_allowed x).
      * apply difference_difference_l_L.
      * rewrite union_empty_l_L. reflexivity.
    + intros p Hp. cbn [disk].
      assert (Hpw : p ∈ disk w) by (apply Hin; right; exact Hp).
      destruct (storage_accepts x && unlink_allowed x); [|exact Hpw].
      apply elem_of_difference. split; [exact Hpw|].
      rewrite elem_of_singleton. intros ->. contradiction.
Qed.

Abbreviation csv_files_of := (csv_files_of is_csv).

Lemma csv_files_of_NoDup (files : gset Path) : NoDup (csv_files_of files).
Proof. apply NoDup_filter, NoDup_elements. Qed.

Lemma elem_of_csv_files_of (files : gset Path) (p : Path) :
  p ∈ csv_files_of files <-> is_csv p = true /\ p ∈ files.
Proof. unfold Uploader.csv_files_of. rewrite list_elem_of_filter, elem_of_elements. tauto. Qed.

Lemma uploaded_failed_count (l : list Path) :
  uploaded_count l + failed_count l = Z.of_nat (length l).
Proof.
  induction l as [|x rest IH]; [reflexivity|].
  cbn [Uploader.uploaded_count Uploader.failed_count length].
  destruct (storage_accepts x); lia.
Qed.

(** *** A whole run *)

Lemma process_files_closed (files : gset Path) :
  csv_files_of files <> [] ->
  process_files true files
  = {| disk := files ∖ deleted (csv_files_of files);
       log := [DoubleRule; StartedAt; DoubleRule;
               FoundCsv (Z.of_nat (length (csv_files_of files)))]
              ++ flat_map file_lines (csv_files_of files)
              ++ [SingleRule;
                  Complete (uploaded_count (csv_files_of files))
                           (failed_count (csv_files_of files));
                  DoubleRule] |}.
Proof.
  intros Hne. unfold Uploader.process_files, get_csv_files, logged. cbn [disk log].
  fold (csv_files_of files).
  destruct (csv_files_of files) as [|x rest] eqn:Ecsv; [congruence|].
  rewrite process_loop_closed.
  - cbn [disk log]. rewrite !Z.add_0_l, <- !app_assoc. reflexivity.
  - rewrite <- Ecsv. apply csv_files_of_NoDup.
  - intros p Hp. cbn [disk]. rewrite <- Ecsv in Hp.
    apply elem_of_csv_files_of in Hp. tauto.
Qed.

Lemma process_files_nothing (folder_exists : bool) (files : gset Path) :
  folder_exists = false \/ csv_files_of files = [] ->
  process_files folder_exists files
  = {| disk := files;
       log := [DoubleRule; StartedAt; DoubleRule;
               if folder_exists then FoundCsv 0 else FolderMissing;
               NoCsvFiles] |}.
Proof.
  intros H. unfold Uploader.process_files, get_csv_files, logged. cbn [disk log].
  fold (csv_files_of files). destruct folder_exists.
  - destruct H as [H|H]; [discriminate|]. rewrite H. reflexivity.
  - reflexivity.
Qed.

Lemma Uploaded_in_lines (l : list Path) (p : Path) :
  p ∈ l -> storage_accepts p = true -> Uploaded p ∈ flat_map file_lines l.
Proof.
  intros Hp Ha. apply list_elem_of_In, in_flat_map. exists p.
  split; [apply list_elem_of_In, Hp|].
  unfold Uploader.file_lines. rewrite Ha. destruct (unlink_allowed p); cbn; auto.
Qed.

Lemma Processing_in_lines (l : list Path) (p : Path) :
  p ∈ l -> Processing p ∈ flat_map file_lines l.
Proof.
  intros Hp. apply list_elem_of_In, in_flat_map. exists p.
  split; [apply list_elem_of_In, Hp|].
  unfold Uploader.file_lines.
  destruct (storage_accepts p), (unlink_allowed p); cbn; auto.
Qed.

(** *** The order of the lines *)

Lemma deletion_follows_upload_app (t c : list log_line) :
  deletion_follows_upload t -> deletion_follows_upload c ->
  deletion_follows_upload (t ++ c).
Proof.
  intros Ht Hc i p Hi. destruct (decide (i < length t)%nat) as [Hlt|Hge].
  - rewrite !lookup_app_l in Hi by exact Hlt.
    destruct (Ht i p Hi) as (j & -> & Hj). exists j. split; [reflexivity|].
    rewrite lookup_app_l by lia. exact Hj.
  - rewrite !lookup_app_r in Hi by lia.
    destruct (Hc _ p Hi) as (j & Hij & Hj). exists (length t + j)%nat.
    split; [lia|]. rewrite lookup_app_r by lia.
    replace (length t + j - length t)%nat with j by lia. exact Hj.
Qed.

(** A short trace, line by line. *)
Ltac short_trace :=
  let i := fresh "i" in let p := fresh "p" in let Hi := fresh "Hi" in
  intros i p Hi;
  do 6 (try destruct i as [|i]);
  cbn in Hi; destruct Hi as [Hi|Hi]; try discriminate Hi;
  injection Hi as <-; eexists; split; reflexivity.

Lemma deletion_follows_upload_file_lines (p : Path) :
  deletion_follows_upload (file_lines p).
Proof.
  unfold Uploader.file_lines.
  destruct (storage_accepts p), (unlink_allowed p); short_trace.
Qed.

Lemma deletion_follows_upload_flat_map (l : list Path) :
  deletion_follows_upload (flat_map file_lines l).
Proof.
  induction l as [|x rest IH]; cbn [flat_map].
  - short_trace.
  - apply deletion_follows_upload_app; [apply deletion_follows_upload_file_lines | exact IH].
Qed.

(** *** Continue on error *)

(** C8, amended: when the folder holds at least one CSV file, every
    file is processed whatever happens to the others, the log ends
    with the summary, whose counts are the files the storage accepted
    and the files it did not, a file whose upload failed stays in the
    folder, and a file whose upload succeeded is removed exactly when
    its [unlink] succeeds.  For two files, one accepted and one not,
    the summary is 1 uploaded and 1 failed. *)
Theorem files_processed_independently (files : gset Path) :
  csv_files_of files <> [] ->
  log (process_files true files)
  = [DoubleRule; StartedAt; DoubleRule;
     FoundCsv (Z.of_nat (length (csv_files_of files)))]
    ++ flat_map file_lines (csv_files_of files)
    ++ [SingleRule;
        Complete (uploaded_count (csv_files_of files))
                 (failed_count (csv_files_of files));
        DoubleRule]
  /\ uploaded_count (csv_files_of files) + failed_count (csv_files_of files)
     = Z.of_nat (length (csv_files_of files))
  /\ (forall p, p ∈ csv_files_of files ->
        Processing p ∈ log (process_files true files))
  /\ (forall p, p ∈ csv_files_of files -> storage_accepts p = false ->
        p ∈ disk (process_files true files))
  /\ (forall p, p ∈ csv_files_of files -> storage_accepts p = true ->
        (p ∉ disk (process_files true files) <-> unlink_allowed p = true))
  /\ (forall a b, csv_files_of files ≡ₚ [a; b] ->
        storage_accepts a = true -> storage_accepts b = false ->
        uploaded_count (csv_files_of files) = 1
        /\ failed_count (csv_files_of files) = 1
        /\ b ∈ disk (process_files true files)
        /\ (a ∉ disk (process_files true files) <-> unlink_allowed a = true)).
Proof.
  intros Hne. rewrite (process_files_closed _ Hne). cbn [disk log].
  assert (Hfailed : forall p, p ∈ csv_files_of files -> storage_accepts p = false ->
                      p ∈ files ∖ deleted (csv_files_of files)).
  { intros p Hp Ha. apply elem_of_difference. split.
    - apply elem_of_csv_files_of in Hp. tauto.
    - rewrite elem_of_deleted. intros (_ & Ha' & _). congruence. }
  assert (Hdone : forall p, p ∈ csv_files_of files -> storage_accepts p = true ->
                    (p ∉ files ∖ deleted (csv_files_of files)
                     <-> unlink_allowed p = true)).
  { intros p Hp Ha. rewrite elem_of_difference, elem_of_deleted.
    apply elem_of_csv_files_of in Hp as Hp'. destruct Hp' as [_ Hin]. split.
    - intros Hnot. destruct (unlink_allowed p); [reflexivity|].
      exfalso. apply Hnot. split; [exact Hin|]. intros (_ & _ & Hu). discriminate.
    - intros Hu [_ Hnot]. apply Hnot. auto. }
  split; [reflexivity|]. split; [apply uploaded_failed_count|].
  split; [|split; [exact Hfailed|split; [exact Hdone|]]].
  - intros p Hp. rewrite !elem_of_app. right. left. apply Processing_in_lines, Hp.
  - intros a b Hperm Ha Hb.
    assert (Hina : a ∈ csv_files_of files) by (rewrite Hperm; left).
    assert (Hinb : b ∈ csv_files_of files) by (rewrite Hperm; right; left).
    split; [|split; [|split; [apply Hfailed | apply Hdone]; assumption]];
      symmetry in Hperm;
      apply Permutation_length_2_inv in Hperm as [-> | ->];
      cbn [Uploader.uploaded_count Uploader.failed_count]; rewrite Ha, Hb; reflexivity.
Qed.

(** *** Upload done, deletion refused *)

(** C9: a file of the folder that the storage accepts and that cannot
    be unlinked adds one to [uploaded] and nothing to [failed]; it
    stays in the folder, a warning is logged, and the loop goes on
    with the files that remain. *)
Theorem upload_counts_when_delete_fails (p : Path) (u f : Z) (w : world) :
  p ∈ disk w -> storage_accepts p = true -> unlink_allowed p = false ->
  process_one p (u, f, w)
  = (u + 1, f,
     {| disk := disk w;
        log := log w ++ [Processing p; Uploaded p; DeleteFailed p;
                         LocalCopyRemains p] |})
  /\ forall rest,
       process_loop (p :: rest) (u, f, w)
       = process_loop rest
           (u + 1, f,
            {| disk := disk w;
               log := log w ++ [Processing p; Uploaded p; DeleteFailed p;
                                LocalCopyRemains p] |}).
Proof.
  intros Hp Ha Hu.
  assert (Hstep : process_one p (u, f, w)
                  = (u + 1, f,
                     {| disk := disk w;
                        log := log w ++ [Processing p; Uploaded p; DeleteFailed p;
                                         LocalCopyRemains p] |})).
  { rewrite (process_one_on_disk _ _ _ _ Hp). unfold Uploader.file_lines.
    rewrite Ha, Hu. cbn [andb]. rewrite Z.add_0_r. reflexivity. }
  split; [exact Hstep|]. intros rest. cbn [Uploader.process_loop].
  rewrite Hstep. reflexivity.
Qed.

(** *** No deletion without an upload *)

(** C10: in the log of every run a line that reports an [unlink],
    done or refused, comes right after the line that reports the
    upload of the same file; a file that is gone from the folder after
    the run is one the storage accepted and whose upload was logged; a
    file the storage refuses is still there; and the run adds no file. *)
Theorem deletion_only_after_upload (folder_exists : bool) (files : gset Path) :
  deletion_follows_upload (log (process_files folder_exists files))
  /\ (forall p, p ∈ files -> p ∉ disk (process_files folder_exists files) ->
        storage_accepts p = true
        /\ Uploaded p ∈ log (process_files folder_exists files))
  /\ (forall p, p ∈ files -> storage_accepts p = false ->
        p ∈ disk (process_files folder_exists files))
  /\ disk (process_files folder_exists files) ⊆ files.
Proof.
  destruct (decide (folder_exists = true /\ csv_files_of files <> [])) as [[-> Hne]|Hnone].
  - rewrite (process_files_closed _ Hne). cbn [disk log]. split; [|split; [|split]].
    + apply deletion_follows_upload_app; [short_trace|].
      apply deletion_follows_upload_app;
        [apply deletion_follows_upload_flat_map | short_trace].
    + intros p Hin Hnot. rewrite elem_of_difference, elem_of_deleted in Hnot.
      destruct (decide (p ∈ csv_files_of files)) as [Hp|Hp];
        [|exfalso; apply Hnot; split; [exact Hin|tauto]].
      destruct (storage_accepts p) eqn:Ha;
        [|exfalso; apply Hnot; split; [exact Hin|]; intros (_ & ? & _); discriminate].
      split; [reflexivity|]. rewrite !elem_of_app. right. left.
      apply Uploaded_in_lines; assumption.
    + intros p Hin Ha. apply elem_of_difference. split; [exact Hin|].
      rewrite elem_of_deleted. intros (_ & Ha' & _). congruence.
    + intros p Hp. apply elem_of_difference in Hp. tauto.
  - rewrite process_files_nothing.
    + cbn [disk log]. split; [|split; [|split]].
      * destruct folder_exists; short_trace.
      * intros p Hin Hnot. contradiction.
      * intros p Hin _. exact Hin.
      * reflexivity.
    + destruct folder_exists; [right|left; reflexivity].
      destruct (csv_files_of files); [reflexivity|].
      exfalso. apply Hnone. split; [reflexivity|discriminate].
Qed.

End Run.

(** C8, as stated, fails on two counts: a file whose upload succeeded
    stays in the folder when its [unlink] is refused, though the
    summary is 1 uploaded and 1 failed; and a run that finds no CSV
    file logs no summary. *)
Lemma succeeded_file_may_remain :
  (Complete 1 1 ∈ log (process_files any_file only_a never true two_csv)
   /\ Uploaded "a.csv"%string ∈ log (process_files any_file only_a never true two_csv)
   /\ UploadFailed "b.csv"%string ∈ log (process_files any_file only_a never true two_csv)
   /\ "b.csv"%string ∈ disk (process_files any_file only_a never true two_csv)
   /\ "a.csv"%string ∈ disk (process_files any_file only_a never true two_csv))
  /\ forall u f, Complete u f ∉ log (process_files any_file only_a never true ∅).
Proof.
  split.
  - assert (Hlog : log (process_files any_file only_a never true two_csv)
                   = [DoubleRule; StartedAt; DoubleRule; FoundCsv 2;
                      Processing "a.csv"; Uploaded "a.csv"; DeleteFailed "a.csv";
                      LocalCopyRemains "a.csv";
                      Processing "b.csv"; UploadFailed "b.csv";
                      SingleRule; Complete 1 1; DoubleRule])
      by (vm_compute; reflexivity).
    assert (Hdisk : disk (process_files any_file only_a never true two_csv) = two_csv)
      by (vm_compute; reflexivity).
    rewrite Hlog, Hdisk. unfold two_csv.
    split; [apply list_elem_of_lookup; exists 11%nat; reflexivity|].
    split; [apply list_elem_of_lookup; exists 5%nat; reflexivity|].
    split; [apply list_elem_of_lookup; exists 9%nat; reflexivity|].
    split; apply elem_of_union; [right|left]; apply elem_of_singleton; reflexivity.
  - intros u f Hin.
    assert (Hlog : log (process_files any_file only_a never true ∅)
                   = [DoubleRule; StartedAt; DoubleRule; FoundCsv 0; NoCsvFiles])
      by (vm_compute; reflexivity).
    rewrite Hlog in Hin. apply list_elem_of_In in Hin. cbn in Hin.
    intuition discriminate.
Qed.

Lemma files_processed_independently_witness :
  log (process_files any_file only_a any_file true two_csv)
  = [DoubleRule; StartedAt; DoubleRule;
     FoundCsv (Z.of_nat (length (csv_files_of any_file two_csv)))]
    ++ flat_map (file_lines only_a any_file) (csv_files_of any_file two_csv)
    ++ [SingleRule;
        Complete (uploaded_count only_a (csv_files_of any_file two_csv))
                 (failed_count only_a (csv_files_of any_file two_csv));
        DoubleRule]
  /\ uploaded_count only_a (csv_files_of any_file two_csv)
     + failed_count only_a (csv_files_of any_file two_csv)
     = Z.of_nat (length (csv_files_of any_file two_csv))
  /\ (forall p, p ∈ csv_files_of any_file two_csv ->
        Processing p ∈ log (process_files any_file only_a any_file true two_csv))
  /\ (forall p, p ∈ csv_files_of any_file two_csv -> only_a p = false ->
        p ∈ disk (process_files any_file only_a any_file true two_csv))
  /\ (forall p, p ∈ csv_files_of any_file two_csv -> only_a p = true ->
        (p ∉ disk (process_files any_file only_a any_file true two_csv)
         <-> any_file p = true))
  /\ (forall a b, csv_files_of any_file two_csv ≡ₚ [a; b] ->
        only_a a = true -> only_a b = false ->
        uploaded_count only_a (csv_files_of any_file two_csv) = 1
        /\ failed_count only_a (csv_files_of any_file two_csv) = 1
        /\ b ∈ disk (process_files any_file only_a any_file true two_csv)
        /\ (a ∉ disk (process_files any_file only_a any_file true two_csv)
            <-> any_file a = true)).
Proof.
  apply (files_processed_independently any_file only_a any_file two_csv).
  vm_compute. discriminate.
Defined.

Lemma upload_counts_when_delete_fails_witness :
  process_one any_file never "a.csv"%string (0, 0, {| disk := two_csv; log := [] |})
  = (0 + 1, 0,
     {| disk := two_csv;
        log := [] ++ [Processing "a.csv"%string; Uploaded "a.csv"%string;
                      DeleteFailed "a.csv"%string; LocalCopyRemains "a.csv"%string] |})
  /\ forall rest,
       process_loop any_file never ("a.csv"%string :: rest)
                    (0, 0, {| disk := two_csv; log := [] |})
       = process_loop any_file never rest
           (0 + 1, 0,
            {| disk := two_csv;
               log := [] ++ [Processing "a.csv"%string; Uploaded "a.csv"%string;
                             DeleteFailed "a.csv"%string;
                             LocalCopyRemains "a.csv"%string] |}).
Proof.
  apply (upload_counts_when_delete_fails any_file never "a.csv"%string 0 0
           {| disk := two_csv; log := [] |}).
  - cbn [disk]. unfold two_csv. apply elem_of_union. left.
    apply elem_of_singleton. reflexivity.
  - reflexivity.
  - reflexivity.
Defined.

End UploaderFacts.

(** ** More on the icon container *)

Module IcoMore.
Import Struct StructFacts Ico IcoFacts Entry.
Local Open Scope Z_scope.

Lemma entries_fit_dec (images_data : list img_info) (offset : Z) :
  entries_fit images_data offset \/ ~ entries_fit images_data offset.
Proof.
  revert offset. induction images_data as [|img rest IH]; intros offset;
    cbn [entries_fit]; [left; constructor|].
  destruct (IH (offset + len (data img))) as [Hr|Hr]; [|right; tauto].
  destruct (Z_le_gt_dec 0 (size img)); [|right; lia].
  destruct (Z_le_gt_dec (len (data img)) 4294967295); [|right; lia].
  destruct (Z_le_gt_dec offset 4294967295); [|right; lia].
  left. tauto.
Qed.

Lemma fits_dec (images_data : list img_info) : fits images_data \/ ~ fits images_data.
Proof.
  unfold fits. destruct (Z_le_gt_dec (len images_data) 65535); [|right; lia].
  destruct (entries_fit_dec images_data (6 + 16 * len images_data)); [left|right]; tauto.
Qed.


Lemma total_data_take_S (images_data : list img_info) (i : nat) (img : img_info) :
  images_data !! i = Some img ->
  total_data (take (S i) images_data) = total_data (take i images_data) + len (data img).
Proof.
  revert i. induction images_data as [|x rest IH]; intros [|i] Hi; try discriminate.
  - injection Hi as ->. destruct rest; cbn [firstn total_data]; lia.
  - change (take (S (S i)) (x :: rest)) with (x :: take (S i) rest).
    change (take (S i) (x :: rest)) with (x :: take i rest).
    cbn [total_data]. rewrite (IH _ Hi). lia.
Qed.

(** *** How a call ends *)

(** X1: on a non-empty sequence the call returns exactly when every
    packed value fits its field, and ends in [struct.error] exactly
    when one does not. *)
Theorem returns_iff_fits (images_data : list img_info) :
  images_data <> [] ->
  (ending (write_images images_data) = Returns <-> fits images_data)
  /\ (ending (write_images images_data) = Raises struct_error <-> ~ fits images_data).
Proof.
  intros Hne. destruct (fits_dec images_data) as [Hfit|Hbad].
  - rewrite (write_images_fits _ Hne Hfit). cbn [ending].
    split; split; try tauto; try discriminate.
  - rewrite (write_images_raises _ Hne Hbad).
    split; split; try tauto; try discriminate.
Qed.

Lemma returns_iff_fits_witness :
  (ending (write_images two_images) = Returns <-> fits two_images)
  /\ (ending (write_images two_images) = Raises struct_error <-> ~ fits two_images).
Proof. apply (returns_iff_fits two_images). discriminate. Defined.

Lemma write_images_raises_stdout (images_data : list img_info) :
  images_data <> [] -> ~ fits images_data ->
  stdout (write_images images_data) = [CreatingIco (len images_data)].
Proof.
  intros Hne Hbad. unfold write_images.
  destruct images_data as [|img rest]; [congruence|].
  destruct (write_ico_raises _ Hbad) as [f Hf]. rewrite Hf. reflexivity.
Qed.



(** *** The payload region *)

Lemma payload_bytes_concat (images_data : list img_info) :
  payload_bytes images_data = concat (map data images_data).
Proof.
  induction images_data as [|img rest IH]; [reflexivity|].
  cbn [payload_bytes map concat]. rewrite IH. reflexivity.
Qed.

(** X3: in a container the call completes, the payloads are the
    entries' bytes one after the other, in order and with nothing in
    between, from the end of the directory to the end of the file:
    every payload ends where the next one starts, and the last one
    ends the file. *)
Theorem payloads_are_contiguous (images_data : list img_info) :
  images_data <> [] -> fits images_data ->
  exists out,
    written (write_images images_data) = Some out
    /\ len out = 6 + 16 * len images_data + total_data images_data
    /\ drop (6 + 16 * length images_data) out = concat (map data images_data)
    /\ forall i img, images_data !! i = Some img ->
         payloadOffset_at i out + payloadByteLength_at i out
         = if decide (S i < length images_data)%nat
           then payloadOffset_at (S i) out else len out.
Proof.
  intros Hne Hfits. exists (ico_bytes images_data).
  rewrite (write_images_fits _ Hne Hfits). cbn [written].
  split; [reflexivity|]. split; [apply len_ico_bytes|]. split.
  - unfold ico_bytes. rewrite app_assoc, <- payload_bytes_concat.
    apply drop_app_length'.
    rewrite length_app, length_header_bytes, length_directory_bytes. reflexivity.
  - intros i img Hi.
    rewrite (payloadOffset_at_ico_bytes _ _ _ Hfits Hi),
            (payloadByteLength_at_ico_bytes _ _ _ Hfits Hi).
    unfold payload_offset at 1. rewrite <- Z.add_assoc, <- (total_data_take_S _ _ _ Hi).
    destruct (decide (S i < length images_data)%nat) as [Hlt|Hge].
    + destruct (lookup_lt_is_Some_2 images_data (S i) Hlt) as [img' Hi'].
      rewrite (payloadOffset_at_ico_bytes _ _ _ Hfits Hi'). reflexivity.
    + rewrite take_ge by lia. rewrite len_ico_bytes. reflexivity.
Qed.

Lemma payloads_are_contiguous_witness :
  exists out,
    written (write_images two_images) = Some out
    /\ len out = 6 + 16 * len two_images + total_data two_images
    /\ drop (6 + 16 * length two_images) out = concat (map data two_images)
    /\ forall i img, two_images !! i = Some img ->
         payloadOffset_at i out + payloadByteLength_at i out
         = if decide (S i < length two_images)%nat
           then payloadOffset_at (S i) out else len out.
Proof.
  apply (payloads_are_contiguous two_images).
  - discriminate.
  - fits_by_evaluation.
Defined.

(** *** Sizes above 256 *)



(** *** From the resources directory to the container *)

Lemma load_images_entries (png : Z -> option (list byte)) (sizes : list Z) :
  map size (load_images png sizes).1 = filter (fun s => is_Some (png s)) sizes
  /\ Forall (fun img => png (size img) = Some (data img)) (load_images png sizes).1.
Proof.
  induction sizes as [|sz rest [IH1 IH2]]; [split; [reflexivity|constructor]|].
  cbn [load_images]. destruct (load_images png rest) as [images_data out].
  cbn [fst] in *. rewrite filter_cons.
  destruct (png sz) as [png_data|] eqn:E; cbn [fst map size].
  - destruct (decide (is_Some (Some png_data))) as [_|Hno];
      [|exfalso; apply Hno; eexists; reflexivity].
    split; [rewrite IH1; reflexivity|].
    apply Forall_cons. split; [exact E | exact IH2].
  - destruct (decide (is_Some (@None (list byte)))) as [[? Hyes]|_];
      [discriminate Hyes|].
    split; assumption.
Qed.

(** X5: the entries the function loads are those of the six sizes of
    its table whose file exists, in the order of the table (largest
    first), each with the bytes of its own file; a size whose file is
    missing is skipped. *)
Theorem loaded_entries_follow_table (png : Z -> option (list byte)) :
  map size (load_images png png_sizes).1
  = filter (fun s => is_Some (png s)) [256; 128; 64; 48; 36; 16]
  /\ Forall (fun img => png (size img) = Some (data img)) (load_images png png_sizes).1
  /\ (length (load_images png png_sizes).1 <= 6)%nat.
Proof.
  destruct (load_images_entries png png_sizes) as [Hsizes Hdata].
  split; [exact Hsizes|]. split; [exact Hdata|].
  apply (load_images_bounds png png_sizes). unfold png_sizes. repeat constructor; lia.
Qed.




(** X7: the line that announces the file ("Created: ...") is printed
    only by a call that returned with the whole container written to
    an output it opened; a call that found no PNG file or that ended
    in [struct.error] does not print it. *)
Theorem created_line_means_complete (png : Z -> option (list byte)) :
  Created ∈ stdout (create_ico_from_pngs png) ->
  ending (create_ico_from_pngs png) = Returns
  /\ written (create_ico_from_pngs png) = Some (ico_bytes (load_images png png_sizes).1)
  /\ (load_images png png_sizes).1 <> []
  /\ fits (load_images png png_sizes).1.
Proof.
  intros Hin. rewrite create_ico_from_pngs_unfold in Hin |- *. cbv zeta in Hin |- *.
  cbn [stdout written ending] in Hin |- *.
  apply elem_of_cons in Hin as [Hin|Hin]; [discriminate Hin|].
  apply elem_of_app in Hin as [Hin|Hin].
  { apply list_elem_of_fmap in Hin as (img & Himg & _). discriminate Himg. }
  destruct (load_images png png_sizes).1 as [|img rest] eqn:Eimgs.
  { cbn in Hin. apply list_elem_of_singleton in Hin. discriminate Hin. }
  assert (Hne : img :: rest <> []) by discriminate.
  destruct (fits_dec (img :: rest)) as [Hfits|Hbad].
  - rewrite (write_images_fits _ Hne Hfits). cbn [written ending]. tauto.
  - rewrite (write_images_raises_stdout _ Hne Hbad) in Hin.
    apply list_elem_of_singleton in Hin. discriminate Hin.
Qed.

Lemma created_line_means_complete_witness :
  ending (create_ico_from_pngs only_16) = Returns
  /\ written (create_ico_from_pngs only_16)
     = Some (ico_bytes (load_images only_16 png_sizes).1)
  /\ (load_images only_16 png_sizes).1 <> []
  /\ fits (load_images only_16 png_sizes).1.
Proof.
  apply (created_line_means_complete only_16).
  apply list_elem_of_lookup. exists 3%nat. reflexivity.
Defined.

End IcoMore.

(** ** More on the uploader *)

Module UploaderMore.
Import Uploader UploaderFacts Entry.
Local Open Scope Z_scope.

Section Scan.

Variable is_csv : Path -> bool.

Abbreviation get_csv_files := (get_csv_files is_csv).

(** *** Scanning the folder *)

(** X8: [get_csv_files] returns each matching file of the folder
    once and nothing else, returns no file when the folder is missing,
    logs one line, and leaves the folder as it is. *)
Theorem get_csv_files_finds (folder_exists : bool) (w : world) :
  NoDup (get_csv_files folder_exists w).1
  /\ (forall p, p ∈ (get_csv_files folder_exists w).1
                <-> folder_exists = true /\ is_csv p = true /\ p ∈ disk w)
  /\ disk (get_csv_files folder_exists w).2 = disk w
  /\ log (get_csv_files folder_exists w).2
     = log w ++ [if folder_exists
                 then FoundCsv (Z.of_nat (length (get_csv_files folder_exists w).1))
                 else FolderMissing].
Proof.
  unfold Uploader.get_csv_files. destruct folder_exists; cbn [fst snd logged disk log].
  - split; [apply NoDup_filter, NoDup_elements|].
    split; [|split; reflexivity].
    intros p. rewrite list_elem_of_filter, elem_of_elements. tauto.
  - split; [constructor|]. split; [|split; reflexivity].
    intros p. rewrite elem_of_nil. split; [contradiction|]. intros [Hno _]. discriminate.
Qed.

End Scan.

Section Loop.

Variable storage_accepts : Path -> bool.
Variable unlink_allowed : Path -> bool.

Abbreviation process_one := (process_one storage_accepts unlink_allowed).
Abbreviation process_loop := (process_loop storage_accepts unlink_allowed).

(** One pass of the loop body on a file that is gone or refused. *)
Lemma process_one_failed (p : Path) (u f : Z) (w : world) :
  p ∉ disk w \/ storage_accepts p = false ->
  process_one p (u, f, w)
  = (u, f + 1, {| disk := disk w; log := log w ++ [Processing p; UploadFailed p] |}).
Proof.
  intros Hbad. unfold Uploader.process_one, upload_file, logged. cbn [disk log].
  assert (Hno : bool_decide (p ∈ disk w) && storage_accepts p = false).
  { destruct Hbad as [Hp|Ha].
    - rewrite (bool_decide_eq_false_2 _ Hp). reflexivity.
    - rewrite Ha. apply andb_false_r. }
  rewrite Hno, <- app_assoc. reflexivity.
Qed.

Lemma process_one_step (p : Path) (u f : Z) (w : world) :
  exists u' f' w',
    process_one p (u, f, w) = (u', f', w')
    /\ u' + f' = u + f + 1 /\ u <= u' /\ f <= f'
    /\ disk w' ⊆ disk w
    /\ exists t, log w' = log w ++ t.
Proof.
  destruct (decide (p ∈ disk w)) as [Hp|Hp].
  - rewrite (process_one_on_disk storage_accepts unlink_allowed _ _ _ _ Hp).
    do 3 eexists. split; [reflexivity|]. cbn [disk log].
    split; [destruct (storage_accepts p); lia|].
    split; [destruct (storage_accepts p); lia|].
    split; [destruct (storage_accepts p); lia|].
    split; [|eexists; reflexivity].
    destruct (storage_accepts p && unlink_allowed p); [|reflexivity].
    intros q Hq. apply elem_of_difference in Hq. tauto.
  - rewrite process_one_failed by (left; exact Hp).
    do 3 eexists. split; [reflexivity|]. cbn [disk log].
    split; [lia|]. split; [lia|]. split; [lia|].
    split; [reflexivity|eexists; reflexivity].
Qed.

(** *** Files that are gone or refused *)

(** X9: a file that is no longer in the folder when its turn comes,
    or that the storage refuses, adds one to [failed] and nothing to
    [uploaded]; no [unlink] is tried, the folder is left as it is and
    the loop goes on with the files that remain. *)
Theorem missing_or_refused_counts_failed (p : Path) (u f : Z) (w : world) :
  p ∉ disk w \/ storage_accepts p = false ->
  process_one p (u, f, w)
  = (u, f + 1, {| disk := disk w; log := log w ++ [Processing p; UploadFailed p] |})
  /\ forall rest,
       process_loop (p :: rest) (u, f, w)
       = process_loop rest
           (u, f + 1,
            {| disk := disk w; log := log w ++ [Processing p; UploadFailed p] |}).
Proof.
  intros Hbad. split; [apply process_one_failed, Hbad|].
  intros rest. cbn [Uploader.process_loop].
  rewrite (process_one_failed _ _ _ _ Hbad). reflexivity.
Qed.

(** X10: over any list of files, repeated or missing ones included,
    the loop counts every file once, as uploaded or as failed; the
    counters never decrease, no file is added to the folder, and the
    log is only appended to. *)
Theorem loop_accounts_for_every_file (l : list Path) (u f : Z) (w : world) :
  (process_loop l (u, f, w)).1.1 + (process_loop l (u, f, w)).1.2
  = u + f + Z.of_nat (length l)
  /\ u <= (process_loop l (u, f, w)).1.1
  /\ f <= (process_loop l (u, f, w)).1.2
  /\ disk (process_loop l (u, f, w)).2 ⊆ disk w
  /\ exists t, log (process_loop l (u, f, w)).2 = log w ++ t.
Proof.
  revert u f w. induction l as [|x rest IH]; intros u f w.
  - cbn [Uploader.process_loop fst snd length].
    split; [lia|]. split; [lia|]. split; [lia|]. split; [reflexivity|].
    exists []. rewrite app_nil_r. reflexivity.
  - cbn [Uploader.process_loop].
    destruct (process_one_step x u f w) as (u' & f' & w' & -> & Hsum & Hu & Hf & Hd & t & Ht).
    destruct (IH u' f' w') as (IHsum & IHu & IHf & IHd & t' & IHt).
    cbn [length]. split; [lia|]. split; [lia|]. split; [lia|]. split.
    + etransitivity; eassumption.
    + exists (t ++ t'). rewrite IHt, Ht, app_assoc. reflexivity.
Qed.

End Loop.

Section Run.

Variable is_csv : Path -> bool.
Variable storage_accepts : Path -> bool.
Variable unlink_allowed : Path -> bool.

Abbreviation process_files := (process_files is_csv storage_accepts unlink_allowed).
Abbreviation file_lines := (file_lines storage_accepts unlink_allowed).
Abbreviation uploaded_count := (uploaded_count storage_accepts).
Abbreviation failed_count := (failed_count storage_accepts).
Abbreviation deleted := (deleted storage_accepts unlink_allowed).
Abbreviation csv_files_of := (csv_files_of is_csv).
Abbreviation main := (main is_csv storage_accepts unlink_allowed).

Lemma Processing_in_lines_inv (l : list Path) (p : Path) :
  Processing p ∈ flat_map file_lines l -> p ∈ l.
Proof.
  intros Hin. apply list_elem_of_In, in_flat_map in Hin as (x & Hx & Hin).
  apply list_elem_of_In in Hx. unfold Uploader.file_lines in Hin.
  destruct (storage_accepts x), (unlink_allowed x); cbn in Hin;
    repeat (destruct Hin as [Hin|Hin]; try discriminate Hin; try contradiction);
    injection Hin as ->; exact Hx.
Qed.

Lemma csv_files_of_nil (files : gset Path) (p : Path) :
  csv_files_of files = [] -> p ∈ files -> is_csv p = false.
Proof.
  intros Hnil Hp. destruct (is_csv p) eqn:E; [|reflexivity].
  assert (Hin : p ∈ csv_files_of files) by (apply (elem_of_csv_files_of is_csv storage_accepts unlink_allowed); tauto).
  rewrite Hnil in Hin. apply elem_of_nil in Hin. contradiction.
Qed.

Lemma run_cases (folder_exists : bool) (files : gset Path) :
  (folder_exists = true /\ csv_files_of files <> [])
  \/ (folder_exists = false \/ csv_files_of files = []).
Proof.
  destruct folder_exists; [|right; left; reflexivity].
  destruct (csv_files_of files); [right; right; reflexivity|].
  left. split; [reflexivity|discriminate].
Qed.

(** Which files a run leaves. *)
Lemma disk_after_run (folder_exists : bool) (files : gset Path) (p : Path) :
  p ∈ disk (process_files folder_exists files)
  <-> p ∈ files
      /\ ~ (folder_exists = true /\ is_csv p = true
            /\ storage_accepts p = true /\ unlink_allowed p = true).
Proof.
  destruct (run_cases folder_exists files) as [[-> Hne]|Hnone].
  - rewrite (process_files_closed is_csv storage_accepts unlink_allowed _ Hne). cbn [disk].
    rewrite elem_of_difference, (elem_of_deleted is_csv storage_accepts unlink_allowed),
      (elem_of_csv_files_of is_csv storage_accepts unlink_allowed). tauto.
  - rewrite process_files_nothing by exact Hnone. cbn [disk].
    split; [|tauto]. intros Hp. split; [exact Hp|].
    intros (Hfe & Hcsv & _). destruct Hnone as [Hno|Hnil]; [congruence|].
    pose proof (csv_files_of_nil _ _ Hnil Hp). congruence.
Qed.

Lemma uploaded_in_run (files : gset Path) (p : Path) :
  p ∈ files -> is_csv p = true -> storage_accepts p = true ->
  Uploaded p ∈ log (process_files true files).
Proof.
  intros Hp Hcsv Ha.
  assert (Hin : p ∈ csv_files_of files) by (apply (elem_of_csv_files_of is_csv storage_accepts unlink_allowed); tauto).
  assert (Hne : csv_files_of files <> []).
  { intros Hnil. rewrite Hnil in Hin. apply elem_of_nil in Hin. contradiction. }
  rewrite (process_files_closed is_csv storage_accepts unlink_allowed _ Hne). cbn [log].
  rewrite !elem_of_app. right. left. apply Uploaded_in_lines; assumption.
Qed.

(** *** What a run touches *)

(** X11: after a run a file is in the folder exactly when it was
    there before and was not a CSV file that the storage accepted and
    that could be unlinked; and the run takes up exactly the CSV
    files of an existing folder.  A file that is not a CSV file is
    neither uploaded nor deleted. *)
Theorem run_touches_only_csv (folder_exists : bool) (files : gset Path) (p : Path) :
  (p ∈ disk (process_files folder_exists files)
   <-> p ∈ files
       /\ ~ (folder_exists = true /\ is_csv p = true
             /\ storage_accepts p = true /\ unlink_allowed p = true))
  /\ (Processing p ∈ log (process_files folder_exists files)
      <-> folder_exists = true /\ is_csv p = true /\ p ∈ files).
Proof.
  split; [apply disk_after_run|].
  destruct (run_cases folder_exists files) as [[-> Hne]|Hnone].
  - rewrite (process_files_closed is_csv storage_accepts unlink_allowed _ Hne). cbn [log].
    rewrite <- (elem_of_csv_files_of is_csv storage_accepts unlink_allowed). split.
    + intros Hin. split; [reflexivity|].
      apply elem_of_app in Hin as [Hin|Hin].
      { apply list_elem_of_In in Hin. cbn in Hin. intuition discriminate. }
      apply elem_of_app in Hin as [Hin|Hin]; [apply Processing_in_lines_inv, Hin|].
      apply list_elem_of_In in Hin. cbn in Hin. intuition discriminate.
    + intros [_ Hp]. rewrite !elem_of_app. right. left.
      apply Processing_in_lines, Hp.
  - rewrite process_files_nothing by exact Hnone. cbn [log]. split.
    + intros Hin. apply list_elem_of_In in Hin. cbn in Hin.
      destruct folder_exists; intuition discriminate.
    + intros (Hfe & Hcsv & Hp). destruct Hnone as [Hno|Hnil]; [congruence|].
      pose proof (csv_files_of_nil _ _ Hnil Hp). congruence.
Qed.

(** *** The next run *)

(** X12: a CSV file that was uploaded and could not be unlinked is
    still in the folder, so the next run over what the first one left
    uploads it once more, and keeps it again. *)
Theorem retained_file_uploaded_again (files : gset Path) (p : Path) :
  p ∈ files -> is_csv p = true ->
  storage_accepts p = true -> unlink_allowed p = false ->
  Uploaded p ∈ log (process_files true files)
  /\ p ∈ disk (process_files true files)
  /\ Uploaded p ∈ log (process_files true (disk (process_files true files)))
  /\ p ∈ disk (process_files true (disk (process_files true files))).
Proof.
  intros Hp Hcsv Ha Hu.
  assert (Hkept : forall fs : gset Path, p ∈ fs -> p ∈ disk (process_files true fs)).
  { intros fs Hfs. apply disk_after_run. split; [exact Hfs|].
    intros (_ & _ & _ & Hu'). congruence. }
  split; [apply uploaded_in_run; assumption|].
  split; [apply Hkept, Hp|].
  split; [apply uploaded_in_run; [apply Hkept, Hp | assumption | assumption]|].
  apply Hkept, Hkept, Hp.
Qed.

(** X13: when the storage accepts every CSV file of the folder and
    every one can be unlinked, the run leaves exactly the files that
    are not CSV files, and the next run finds nothing to do: it logs
    that there is no CSV file and changes nothing. *)
Theorem clean_run_leaves_nothing_to_do (files : gset Path) :
  (forall p, p ∈ files -> is_csv p = true ->
             storage_accepts p = true /\ unlink_allowed p = true) ->
  (forall p, p ∈ disk (process_files true files) <-> p ∈ files /\ is_csv p = false)
  /\ process_files true (disk (process_files true files))
     = {| disk := disk (process_files true files);
          log := [DoubleRule; StartedAt; DoubleRule; FoundCsv 0; NoCsvFiles] |}.
Proof.
  intros Hall.
  assert (Hleft : forall p, p ∈ disk (process_files true files)
                            <-> p ∈ files /\ is_csv p = false).
  { intros p. rewrite disk_after_run. split.
    - intros [Hp Hnot]. split; [exact Hp|].
      destruct (is_csv p) eqn:E; [|reflexivity].
      exfalso. apply Hnot. destruct (Hall p Hp E). tauto.
    - intros [Hp Hcsv]. split; [exact Hp|]. intros (_ & Hcsv' & _). congruence. }
  split; [exact Hleft|].
  apply (process_files_nothing is_csv storage_accepts unlink_allowed true). right.
  destruct (csv_files_of (disk (process_files true files))) as [|x rest] eqn:E;
    [reflexivity|].
  assert (Hx : x ∈ csv_files_of (disk (process_files true files)))
    by (rewrite E; left).
  apply (elem_of_csv_files_of is_csv storage_accepts unlink_allowed) in Hx as [Hcsv Hx].
  apply Hleft in Hx as [_ Hno]. congruence.
Qed.

(** *** The summary and the lines before it *)

Lemma count_lines_app (g : log_line -> bool) (a b : list log_line) :
  count_lines g (a ++ b) = count_lines g a + count_lines g b.
Proof. unfold count_lines. rewrite List.filter_app, length_app. lia. Qed.

Lemma count_lines_file_lines (l : list Path) :
  count_lines is_uploaded_line (flat_map file_lines l) = uploaded_count l
  /\ count_lines is_upload_failed_line (flat_map file_lines l) = failed_count l.
Proof.
  induction l as [|x rest [IHu IHf]]; [split; reflexivity|].
  cbn [flat_map Uploader.uploaded_count Uploader.failed_count].
  rewrite !count_lines_app, IHu, IHf. unfold Uploader.file_lines.
  destruct (storage_accepts x), (unlink_allowed x); split; reflexivity.
Qed.

(** X14: when the folder holds a CSV file, the log ends with the
    summary, and its two counts are the number of "Uploaded" lines
    and the number of "Failed to upload" lines of the log. *)
Theorem summary_matches_lines (files : gset Path) :
  csv_files_of files <> [] ->
  exists t,
    log (process_files true files)
    = t ++ [SingleRule;
            Complete (count_lines is_uploaded_line (log (process_files true files)))
                     (count_lines is_upload_failed_line (log (process_files true files)));
            DoubleRule].
Proof.
  intros Hne. rewrite (process_files_closed is_csv storage_accepts unlink_allowed _ Hne).
  cbn [log]. destruct (count_lines_file_lines (csv_files_of files)) as [Hu Hf].
  rewrite !count_lines_app, Hu, Hf.
  change (count_lines is_uploaded_line
            [DoubleRule; StartedAt; DoubleRule;
             FoundCsv (Z.of_nat (length (csv_files_of files)))]) with 0.
  change (count_lines is_upload_failed_line
            [DoubleRule; StartedAt; DoubleRule;
             FoundCsv (Z.of_nat (length (csv_files_of files)))]) with 0.
  change (count_lines is_uploaded_line
            [SingleRule;
             Complete (uploaded_count (csv_files_of files))
                      (failed_count (csv_files_of files)); DoubleRule]) with 0.
  change (count_lines is_upload_failed_line
            [SingleRule;
             Complete (uploaded_count (csv_files_of files))
                      (failed_count (csv_files_of files)); DoubleRule]) with 0.
  rewrite !Z.add_0_l, !Z.add_0_r.
  eexists. rewrite app_assoc. reflexivity.
Qed.

(** *** The entry point *)

(** X15: the script ends with [sys.exit(1)] exactly when the service
    account file is missing or the SDK cannot be initialised, and then
    nothing is processed: the folder is as before and [process_files]
    logs nothing.  A file is gone from the folder after the script
    only if the initialisation succeeded, the folder exists, the file
    is a CSV file, its upload was accepted and logged, and its
    [unlink] succeeded. *)
Theorem main_processes_only_when_initialised
    (account_exists sdk_ok folder_exists : bool) (files : gset Path) :
  (exit_status (main account_exists sdk_ok folder_exists files) = SystemExit 1
   <-> account_exists = false \/ sdk_ok = false)
  /\ (exit_status (main account_exists sdk_ok folder_exists files) = Finished
      <-> account_exists = true /\ sdk_ok = true)
  /\ (account_exists = false \/ sdk_ok = false ->
      files_after (main account_exists sdk_ok folder_exists files) = files
      /\ run_log (main account_exists sdk_ok folder_exists files) = [])
  /\ (forall p, p ∈ files ->
        p ∉ files_after (main account_exists sdk_ok folder_exists files) ->
        account_exists = true /\ sdk_ok = true /\ folder_exists = true
        /\ is_csv p = true /\ storage_accepts p = true /\ unlink_allowed p = true
        /\ Uploaded p ∈ run_log (main account_exists sdk_ok folder_exists files)).
Proof.
  unfold Entry.main, initialize_firebase.
  destruct account_exists, sdk_ok; cbn [negb exit_status files_after run_log].
  - split; [split; [discriminate|intros [?|?]; discriminate]|].
    split; [tauto|]. split; [intros [?|?]; discriminate|].
    intros p Hp Hgone.
    assert (Hall : folder_exists = true /\ is_csv p = true
                   /\ storage_accepts p = true /\ unlink_allowed p = true).
    { destruct folder_exists, (is_csv p) eqn:?, (storage_accepts p) eqn:?,
               (unlink_allowed p) eqn:?; try tauto;
        exfalso; apply Hgone, disk_after_run; (split; [exact Hp|]);
        intros (? & ? & ? & ?); congruence. }
    destruct Hall as (-> & Hcsv & Ha & Hu).
    repeat (split; [tauto|]). apply uploaded_in_run; assumption.
  - split; [split; [tauto|reflexivity]|]. split; [split; [discriminate|intros [_ ?]; discriminate]|].
    split; [tauto|]. intros p Hp Hgone. contradiction.
  - split; [split; [tauto|reflexivity]|]. split; [split; [discriminate|intros [? _]; discriminate]|].
    split; [tauto|]. intros p Hp Hgone. contradiction.
  - split; [split; [tauto|reflexivity]|]. split; [split; [discriminate|intros [? _]; discriminate]|].
    split; [tauto|]. intros p Hp Hgone. contradiction.
Qed.

End Run.

Lemma retained_file_uploaded_again_witness :
  Uploaded "a.csv"%string ∈ log (process_files any_file any_file never true two_csv)
  /\ "a.csv"%string ∈ disk (process_files any_file any_file never true two_csv)
  /\ Uploaded "a.csv"%string
     ∈ log (process_files any_file any_file never true
              (disk (process_files any_file any_file never true two_csv)))
  /\ "a.csv"%string
     ∈ disk (process_files any_file any_file never true
               (disk (process_files any_file any_file never true two_csv))).
Proof.
  apply (retained_file_uploaded_again any_file any_file never two_csv "a.csv"%string).
  - unfold two_csv. apply elem_of_union. left. apply elem_of_singleton. reflexivity.
  - reflexivity.
  - reflexivity.
  - reflexivity.
Defined.

Lemma clean_run_leaves_nothing_to_do_witness :
  (forall p, p ∈ disk (process_files any_file any_file any_file true two_csv)
             <-> p ∈ two_csv /\ any_file p = false)
  /\ process_files any_file any_file any_file true
       (disk (process_files any_file any_file any_file true two_csv))
     = {| disk := disk (process_files any_file any_file any_file true two_csv);
          log := [DoubleRule; StartedAt; DoubleRule; FoundCsv 0; NoCsvFiles] |}.
Proof.
  apply (clean_run_leaves_nothing_to_do any_file any_file any_file two_csv).
  intros p _ _. split; reflexivity.
Defined.

Lemma missing_or_refused_counts_failed_witness :
  process_one any_file any_file "c.csv"%string (0, 0, {| disk := two_csv; log := [] |})
  = (0, 0 + 1,
     {| disk := two_csv;
        log := [] ++ [Processing "c.csv"%string; UploadFailed "c.csv"%string] |})
  /\ forall rest,
       process_loop any_file any_file ("c.csv"%string :: rest)
                    (0, 0, {| disk := two_csv; log := [] |})
       = process_loop any_file any_file rest
           (0, 0 + 1,
            {| disk := two_csv;
               log := [] ++ [Processing "c.csv"%string; UploadFailed "c.csv"%string] |}).
Proof.
  apply (missing_or_refused_counts_failed any_file any_file "c.csv"%string 0 0
           {| disk := two_csv; log := [] |}).
  left. cbn [disk]. unfold two_csv.
  rewrite elem_of_union, !elem_of_singleton. intros [Heq|Heq]; discriminate Heq.
Defined.

Lemma summary_matches_lines_witness :
  exists t,
    log (process_files any_file only_a never true two_csv)
    = t ++ [SingleRule;
            Complete (count_lines is_uploaded_line
                        (log (process_files any_file only_a never true two_csv)))
                     (count_lines is_upload_failed_line
                        (log (process_files any_file only_a never true two_csv)));
            DoubleRule].
Proof.
  apply (summary_matches_lines any_file only_a never two_csv).
  vm_compute. discriminate.
Defined.

End UploaderMore.
